(** * fioc-strict: the strict dependency-injection container builder

    A shallow embedding of [src/core/container.ts] ([buildStrictDIContainer],
    its six builder operations, [getResult], [resolve], [createScope] and the
    helper [defineSingleton]) together with the properties the specification
    states about them. *)

From stdpp Require Import gmap strings list fin_maps.

Set Default Proof Using "Type".

(** ** Data model *)

(** Modelled from the spec: the type [DIToken] comes from the package
    @fioc/core, which is not among the sources.  A token is an opaque key with
    a display name; the source prints it with [Symbol.keyFor(token)], so it is
    a symbol of the global symbol registry, identified here by its registry
    key. *)
Abbreviation DIToken := string (only parsing).

(** The [scope] argument of [registerFactory] / [replaceFactory]:
    ["transient" | "singleton" | "scoped"]. *)
Inductive Scope : Type := Transient | Singleton | Scoped.

Global Instance Scope_eq_dec : EqDecision Scope.
Proof. solve_decision. Defined.

(** Function values.  [FUser id] is a function written by the application (a
    factory); [FSingleton cell fn] is the closure returned by
    [defineSingleton(fn)]: [cell] is its captured variable [instance] and [fn]
    the function it wraps ([None] when [defineSingleton] was handed
    [undefined]). *)
#[warnings="-register-all"] Inductive Fn : Type :=
| FUser (id : nat)
| FSingleton (cell : nat) (fn : option Fn).

(** Modelled from the spec: the type [DIFactory] comes from @fioc/core; a
    factory descriptor is a function, the ordered list of its dependency
    tokens and, once installed, a scope mode.  An object is seen here through
    these three properties, the only ones the container ever reads; a
    property that the object does not have is [None]. *)
Record JSObject : Type := mkObject {
  dependencies : option (list DIToken);
  factory : option Fn;
  scope : option Scope
}.

(** JavaScript values.  [VRef l] is an application object with identity [l]
    that has none of the properties [dependencies], [factory], [scope];
    [VObj o] is an object that may have them. *)
Inductive value : Type :=
| VUndefined
| VNull
| VBool (b : bool)
| VNum (n : Z)
| VStr (s : string)
| VFun (f : Fn)
| VRef (l : nat)
| VObj (o : JSObject).

(** The container state: an object keyed by tokens. *)
Abbreviation DIContainerState := (gmap string value) (only parsing).

(** What can be thrown.  The first four are the [new Error(...)] of the
    source, named as the specification names them and carrying what the
    message interpolates; [TypeError] is raised by the language itself (a
    property read on [null] / [undefined], a call of a non-function, a
    [for ... of] over a non-iterable); [UserError] is whatever a factory
    throws. *)
Inductive Error : Type :=
| DuplicateTokenError (token : DIToken)
  (* `Token Symbol(${Symbol.keyFor(token)}) already registered` *)
| MissingDependencyError (dep : DIToken)
  (* `Dependency Symbol(${Symbol.keyFor(dep)}) not registered` *)
| MalformedFactoryError (got : value)
  (* `Factory must be an object. Got ${value} instead` *)
| UnregisteredTokenError (token : DIToken)
  (* `Could not Resolve: Token Symbol(${Symbol.keyFor(token)}) not found` *)
| TypeError
| UserError (payload : value).

(** The result of running a piece of code: it returns, it throws, or it
    recurses without bound, which the engine ends with a [RangeError] for
    the exhausted stack: [resolve] on a dependency cycle (the recursion
    budget of the model is exhausted), and the walk of immer's [produce] on
    plain objects that contain one another in a cycle. *)
Inductive Outcome (A : Type) : Type :=
| Ret (a : A)
| Throw (e : Error)
| OutOfFuel.
Arguments Ret {A} a.
Arguments Throw {A} e.
Arguments OutOfFuel {A}.

(** How a call ends for the caller: with a value, or with something thrown. *)
Inductive Completion : Type :=
| Normal (v : value)
| Abrupt (e : Error).

Definition map_outcome {A B} (g : A → B) (r : Outcome A) : Outcome B :=
  match r with
  | Ret a => Ret (g a)
  | Throw e => Throw e
  | OutOfFuel => OutOfFuel
  end.

(** ** Primitive operations of the language *)

(** [typeof v === "object"] *)
Definition typeof_object (v : value) : bool :=
  match v with
  | VNull | VRef _ | VObj _ => true
  | _ => false
  end.

(** Truthiness of a value: [!v] is its negation. *)
Definition truthy (v : value) : bool :=
  match v with
  | VUndefined | VNull => false
  | VBool b => b
  | VNum n => negb (n =? 0)%Z
  | VStr s => if s is EmptyString then false else true
  | VFun _ | VRef _ | VObj _ => true
  end.

(** [v === undefined || v === null], the test behind [??=] and [?.]. *)
Definition nullish (v : value) : bool :=
  match v with
  | VUndefined | VNull => true
  | _ => false
  end.

(** The object spread [{...v}] of a value that passed [typeof v === "object"]:
    spreading [null] gives the empty object. *)
Definition spread (v : value) : JSObject :=
  match v with
  | VObj o => o
  | _ => mkObject None None None
  end.

(** A property read [v.p]: fails with a [TypeError] on [null] and
    [undefined], yields [None] ([undefined]) when the value has no such
    property. *)
Definition get_prop {A} (p : JSObject → option A) (v : value)
  : Error + option A :=
  match v with
  | VUndefined | VNull => inl TypeError
  | VObj o => inr (p o)
  | _ => inr None
  end.

(** [v?.["scope"]] *)
Definition get_scope_opt (v : value) : option Scope :=
  match v with
  | VObj o => scope o
  | _ => None
  end.

(** ** The machine: what running code can change *)

Section Machine.

(** The application's own mutable state, and the code of the application's
    functions: calling function [id] on arguments returns or throws, and
    changes the application state.  Application functions terminate and do
    not call back into the container. *)
Variable World : Type.
Variable user_fn : nat → list value → World → Completion * World.

(** Modelled from the spec: [produce] comes from the package immer, which is
    not among the sources; the specification describes it as structural copy
    on write.  [produce(base, recipe)] runs the recipe on a draft of [base],
    leaves the object [base] as it is and returns the next state.  Before it
    returns, it finalizes the draft: it walks the plain objects and arrays
    below what the recipe has assigned and freezes them (a function, a
    primitive value and an instance of a class are left alone).  On plain
    objects that contain one another in a cycle the walk recurses without
    bound.  The objects walked are the application's, so that the walk is
    given with the application: for the draft of the state [st] in which the
    recipe has assigned [v] to [token], [immer_finalize st token v w] is the
    application state that the walk leaves, started in the application state
    [w], and whether the walk ends ([false]: it does not, [produce] returns
    nothing, and what the walk has frozen stays frozen). *)
Variable immer_finalize :
  gmap string value → DIToken → value → World → bool * World.

(** [cells] holds the [instance] variable of every closure made by
    [defineSingleton], in order of creation.  [calls] is the history of the
    application functions invoked so far, with their arguments (a ghost
    trace, latest call last). *)
Record Machine : Type := mkMachine {
  world : World;
  cells : list value;
  calls : list (nat * list value)
}.

(** Computations: state passing over the machine. *)
Definition M (A : Type) : Type := Machine → Outcome A * Machine.

Definition ret {A} (a : A) : M A := λ m, (Ret a, m).
Definition throw {A} (e : Error) : M A := λ m, (Throw e, m).
Definition out_of_fuel {A} : M A := λ m, (OutOfFuel, m).
Definition bind {A B} (c : M A) (k : A → M B) : M B :=
  λ m, match c m with
       | (Ret a, m') => k a m'
       | (Throw e, m') => (Throw e, m')
       | (OutOfFuel, m') => (OutOfFuel, m')
       end.

Notation "'let*' x := c 'in' k" := (bind c (λ x, k))
  (at level 10, x name, c at level 100, k at level 200).

(** [tokens.map(f)] for an effectful [f]: left to right. *)
Fixpoint mapM {A B} (f : A → M B) (l : list A) : M (list B) :=
  match l with
  | [] => ret []
  | x :: l' => let* y := f x in let* ys := mapM f l' in ret (y :: ys)
  end.

Definition read_cell (c : nat) : M value :=
  λ m, (Ret (default VUndefined (cells m !! c)), m).
Definition write_cell (c : nat) (v : value) : M unit :=
  λ m, (Ret tt, mkMachine (world m) (<[c:=v]> (cells m)) (calls m)).
(** [let instance;] of a new closure. *)
Definition alloc_cell : M nat :=
  λ m, (Ret (length (cells m)),
        mkMachine (world m) (cells m ++ [VUndefined]) (calls m)).

Definition call_user (id : nat) (args : list value) : M value :=
  λ m, let '(r, w) := user_fn id args (world m) in
       (match r with Normal v => Ret v | Abrupt e => Throw e end,
        mkMachine w (cells m) (calls m ++ [(id, args)])).

(** A call [f(...args)].  For the closure of [defineSingleton]:
<<
    (...args) => { instance ??= fn(...args); return instance; }
>> *)
Fixpoint call (f : Fn) (args : list value) : M value :=
  match f with
  | FUser id => call_user id args
  | FSingleton cell fn =>
      let* instance := read_cell cell in
      if nullish instance then
        let* r := match fn with
                  | Some g => call g args
                  | None => throw TypeError
                  end in
        let* _ := write_cell cell r in
        ret r
      else ret instance
  end.

(** [defineSingleton(fn)] *)
Definition defineSingleton (fn : option Fn) : M Fn :=
  let* cell := alloc_cell in ret (FSingleton cell fn).

(** ** The builder *)

(** [buildStrictDIContainer(containerState)]: a builder is the closure of its
    methods over [containerState].  The states are immutable values here:
    [produce(containerState, recipe)] of the package immer (copy on write) and
    the object spread build the next state and leave [containerState] as it
    is.  What [produce] does besides, to the application's objects, is
    [finalize].  The optional argument [scope = "transient"] of
    [registerFactory] and [replaceFactory] is always given. *)
Record StrictDIContainerBuilder : Type := buildStrictDIContainer {
  containerState : DIContainerState
}.

(** The container returned by [getResult()]. *)
Record DIContainer : Type := mkDIContainer {
  getState : DIContainerState
}.

(** [token in containerState] *)
Definition token_in (token : DIToken) (st : gmap string value) : bool :=
  if st !! token is Some _ then true else false.

(** [{ ...o, factory: f }] and [{ ...o, scope }] *)
Definition with_factory (o : JSObject) (f : Fn) : JSObject :=
  mkObject (dependencies o) (Some f) (scope o).
Definition with_scope (o : JSObject) (s : Scope) : JSObject :=
  mkObject (dependencies o) (factory o) (Some s).

(** An element of the array given to [replaceFactoryArray]: an object with a
    [token] property; [object] is the object itself. *)
Record FactoryWithToken : Type := mkFactoryWithToken {
  token : DIToken;
  object : JSObject
}.

Definition merge (b : StrictDIContainerBuilder)
    (stateToMerge : DIContainerState) : M StrictDIContainerBuilder :=
  (* { ...containerState, ...stateToMerge } *)
  ret (buildStrictDIContainer (stateToMerge ∪ containerState b)).

(** The end of [produce(containerState, (draft) => { draft[token] = value;
    return draft; })]: immer's walk, which changes the application state and
    nothing else of the machine.  ([replaceFactory] and [replaceFactoryArray]
    assign a descriptor: an array of tokens, a function and a scope, with
    nothing of the application below.) *)
Definition finalize (st : gmap string value) (token : DIToken) (v : value)
  : M unit :=
  λ m, let '(ended, w) := immer_finalize st token v (world m) in
       (if ended then Ret tt else OutOfFuel,
        mkMachine w (cells m) (calls m)).

Definition replace (b : StrictDIContainerBuilder) (token : DIToken)
    (v : value) : M StrictDIContainerBuilder :=
  (* produce(containerState, (draft) => { draft[token] = value; ... }) *)
  let* _ := finalize (containerState b) token v in
  let newState := <[token := v]> (containerState b) in
  ret (buildStrictDIContainer newState).

Definition register (b : StrictDIContainerBuilder) (token : DIToken)
    (v : value) : M StrictDIContainerBuilder :=
  if token_in token (containerState b)
  then throw (DuplicateTokenError token)
  else replace b token v.

Definition replaceFactory (b : StrictDIContainerBuilder) (token : DIToken)
    (v : value) (scope : Scope) : M StrictDIContainerBuilder :=
  if negb (typeof_object v) then throw (MalformedFactoryError v)
  else
    let* val :=
      match scope with
      | Singleton =>
          match get_prop factory v with
          | inl e => throw e
          | inr fn =>
              let* wrapped := defineSingleton fn in
              ret (with_factory (spread v) wrapped)
          end
      | _ => ret (spread v)
      end in
    let newState := <[token := VObj (with_scope val scope)]> (containerState b) in
    ret (buildStrictDIContainer newState).

(** The loop [for (const dep of dependencies) if (!(dep in containerState))
    throw ...]. *)
Fixpoint check_dependencies (st : gmap string value)
    (deps : list DIToken) : M unit :=
  match deps with
  | [] => ret tt
  | dep :: rest =>
      if token_in dep st then check_dependencies st rest
      else throw (MissingDependencyError dep)
  end.

Definition registerFactory (b : StrictDIContainerBuilder) (token : DIToken)
    (v : value) (scope : Scope) : M StrictDIContainerBuilder :=
  if negb (typeof_object v) || negb (truthy v)
  then throw (MalformedFactoryError v)
  else
    let deps := get_prop dependencies v in
    if token_in token (containerState b)
    then throw (DuplicateTokenError token)
    else
      match deps with
      | inr (Some deps) =>
          let* _ := check_dependencies (containerState b) deps in
          replaceFactory b token v scope
      | _ => throw TypeError
      end.

Definition replaceFactoryArray (b : StrictDIContainerBuilder)
    (values : list FactoryWithToken) : M StrictDIContainerBuilder :=
  let newState :=
    foldl (λ draft v, <[token v := VObj (object v)]> draft)
          (containerState b) values in
  ret (buildStrictDIContainer newState).

Definition getResult (b : StrictDIContainerBuilder) : DIContainer :=
  mkDIContainer (containerState b).

(** ** The resolved container *)

(** [diContainer.resolve(toResolve)].  The recursion through
    [diContainer.resolve] is bounded by [fuel]. *)
Fixpoint resolve (fuel : nat) (diContainer : DIContainer)
    (token : DIToken) : M value :=
  match fuel with
  | O => out_of_fuel
  | S fuel' =>
      match getState diContainer !! token with
      | None => throw (UnregisteredTokenError token)
      | Some state =>
          match get_prop dependencies state with
          | inl e => throw e
          | inr None => ret state
          | inr (Some deps) =>
              let* args := mapM (resolve fuel' diContainer) deps in
              match get_prop factory state with
              | inr (Some f) => call f args
              | _ => throw TypeError
              end
          end
      end
  end.

(** The [scopedResolve] closure of [createScope]; its captured object
    [instances] is passed in and out. *)
Definition scopedResolve (fuel : nat) (diContainer : DIContainer)
    (instances : gmap string value) (token : DIToken)
  : M (value * gmap string value) :=
  match instances !! token with
  | Some cached => ret (cached, instances)
  | None =>
      let* resolved := resolve fuel diContainer token in
      if decide (get_scope_opt (default VUndefined (getState diContainer !! token))
                 = Some Scoped)
      then ret (resolved, <[token := resolved]> instances)
      else ret (resolved, instances)
  end.

(** The callback handed to [createScope], as the sequence of its calls of the
    resolver it is given: it asks for a token and goes on with the answer
    (which it may have caught), until it returns or throws.  [CReturn vs]
    carries the values the callback has stored in variables of its
    environment. *)
Inductive Callback : Type :=
| CReturn (vs : list value)
| CThrow (e : Error)
| CResolve (token : DIToken) (k : Completion → Callback).

(** [callback(scopedResolve)].  Besides what the callback returns, the run
    yields every value the resolver handed to it, in order. *)
Fixpoint run_callback (fuel : nat) (diContainer : DIContainer)
    (callback : Callback) (instances : gmap string value)
    (seen : list (DIToken * value))
  : M (list value * list (DIToken * value)) :=
  match callback with
  | CReturn vs => ret (vs, seen)
  | CThrow e => throw e
  | CResolve token k =>
      λ m, match scopedResolve fuel diContainer instances token m with
           | (Ret (v, instances'), m') =>
               run_callback fuel diContainer (k (Normal v)) instances'
                            (seen ++ [(token, v)]) m'
           | (Throw e, m') =>
               run_callback fuel diContainer (k (Abrupt e)) instances seen m'
           | (OutOfFuel, m') => (OutOfFuel, m')
           end
  end.

Definition createScope (fuel : nat) (diContainer : DIContainer)
    (callback : Callback) : M (list value * list (DIToken * value)) :=
  let instances : gmap string value := ∅ in
  run_callback fuel diContainer callback instances [].

End Machine.

Arguments mkMachine {World} world cells calls.
Arguments world {World} m.
Arguments cells {World} m.
Arguments calls {World} m.
Arguments ret {World A} a m.
Arguments throw {World A} e m.
Arguments out_of_fuel {World A} m.
Arguments bind {World A B} c k m.
Arguments mapM {World A B} f l m.
Arguments read_cell {World} c m.
Arguments write_cell {World} c v m.
Arguments alloc_cell {World} m.
Arguments call_user {World} user_fn id args m.
Arguments call {World} user_fn f args m.
Arguments defineSingleton {World} fn m.
Arguments merge {World} b stateToMerge m.
Arguments finalize {World} immer_finalize st token v m.
Arguments replace {World} immer_finalize b token v m.
Arguments register {World} immer_finalize b token v m.
Arguments replaceFactory {World} b token v scope m.
Arguments check_dependencies {World} st deps m.
Arguments registerFactory {World} b token v scope m.
Arguments replaceFactoryArray {World} b values m.
Arguments resolve {World} user_fn fuel diContainer token m.
Arguments scopedResolve {World} user_fn fuel diContainer instances token m.
Arguments run_callback {World} user_fn fuel diContainer callback instances seen m.
Arguments createScope {World} user_fn fuel diContainer callback m.

Notation "'let*' x := c 'in' k" := (bind c (λ x, k))
  (at level 10, x name, c at level 100, k at level 200).

(** ** A small application, to run the container on

    Its state is a counter of the objects it has created.  Function [0]
    creates a new object at each call; function [1] returns one shared
    object; function [2] returns [null] the first time it runs and a new
    object afterwards; function [3] returns its first argument; function [4]
    throws. *)
Module App.

Definition fn (id : nat) (args : list value) (created : nat)
  : Completion * nat :=
  match id with
  | 0 => (Normal (VRef created), S created)
  | 1 => (Normal (VRef 1000), created)
  | 2 => match created with
         | 0 => (Normal VNull, 1)
         | _ => (Normal (VRef created), S created)
         end
  | 3 => (Normal (default VUndefined (head args)), created)
  | _ => (Abrupt (UserError (VStr "boom")), created)
  end.

(** The objects of this application are instances of classes: immer leaves
    them alone. *)
Definition immer_finalize (st : gmap string value) (token : DIToken)
    (v : value) (created : nat) : bool * nat :=
  (true, created).

Definition start : Machine nat := mkMachine 0 [] [].

Definition empty : StrictDIContainerBuilder := buildStrictDIContainer ∅.

(** [{ dependencies: deps, factory: f }] *)
Definition descriptor (deps : list DIToken) (f : nat) : value :=
  VObj (mkObject (Some deps) (Some (FUser f)) None).

(** A builder that holds one value. *)
Definition with_repoA : StrictDIContainerBuilder :=
  buildStrictDIContainer {[ "RepoA" := VRef 7 ]}.

(** A container with a singleton registered on a machine that has its
    cell. *)
Definition with_singleton : StrictDIContainerBuilder :=
  buildStrictDIContainer
    {[ "Service" :=
         VObj (mkObject (Some []) (Some (FSingleton 0 (Some (FUser 0))))
                        (Some Singleton)) ]}.
Definition one_cell : Machine nat := mkMachine 0 [VUndefined] [].

(** A container with a scoped factory and a transient factory that depends
    on it. *)
Definition with_scoped : DIContainer :=
  mkDIContainer
    {[ "Session" := VObj (mkObject (Some []) (Some (FUser 0)) (Some Scoped));
       "Handler" := VObj (mkObject (Some ["Session"]) (Some (FUser 3))
                                   (Some Transient)) ]}.

(** A callback that asks the resolver for the tokens in turn and keeps the
    answers; it does not catch what the resolver throws. *)
Fixpoint ask (tokens : list DIToken) (answers : list value) : Callback :=
  match tokens with
  | [] => CReturn answers
  | token :: rest =>
      CResolve token (λ r, match r with
                           | Normal v => ask rest (answers ++ [v])
                           | Abrupt e => CThrow e
                           end)
  end.

(** A container with two factories that depend on each other, as
    [replaceFactoryArray] lets one install them. *)
Definition with_cycle : DIContainer :=
  mkDIContainer
    {[ "Chicken" := VObj (mkObject (Some ["RepoA"; "Egg"]) (Some (FUser 0)) None);
       "Egg" := VObj (mkObject (Some ["Chicken"]) (Some (FUser 0)) None);
       "RepoA" := VRef 7 ]}.

(** The builder [buildStrictDIContainer().register(RepoA, repoA)
    .registerFactory(UseCase, { dependencies: [RepoA], factory }, "singleton")],
    on a machine without cells. *)
Definition wired : StrictDIContainerBuilder :=
  buildStrictDIContainer
    (<["UseCase" := VObj (mkObject (Some ["RepoA"])
                            (Some (FSingleton 0 (Some (FUser 3))))
                            (Some Singleton))]>
       (<["RepoA" := VRef 7]> ∅)).

End App.

(** ** An application with plain objects

    Its state is the plain object [settings = { limits: { count: 0 } }],
    application object [7]: the number [count], and whether the object
    [limits] below [settings] is frozen.  Function [0] is
    [() => ++settings.limits.count], in strict-mode code: on the frozen
    object the assignment throws a [TypeError].  Application object [9] is a
    plain object in a cycle, [first = { second: {} }] with
    [first.second.first = first].  Every other object is an instance of a
    class, and the states of the builders it is used with hold no other
    object. *)
Module Plain.

Record Settings : Type := mkSettings {
  count : Z;
  limits_frozen : bool
}.

Definition fn (id : nat) (args : list value) (w : Settings)
  : Completion * Settings :=
  match id with
  | 0 =>
      if limits_frozen w then (Abrupt TypeError, w)
      else (Normal (VNum (count w + 1)), mkSettings (count w + 1) false)
  | _ => (Normal VUndefined, w)
  end.

(** immer's walk: below [settings] it finds and freezes [limits]; below
    [first] it finds [second], below [second] it finds [first], without end
    and before it has frozen anything. *)
Definition immer_finalize (st : gmap string value) (token : DIToken)
    (v : value) (w : Settings) : bool * Settings :=
  match v with
  | VRef 7 => (true, mkSettings (count w) true)
  | VRef 9 => (false, w)
  | _ => (true, w)
  end.

Definition start : Machine Settings := mkMachine (mkSettings 0 false) [] [].

(** [buildStrictDIContainer().registerFactory(Counter,
    { dependencies: [], factory: () => ++settings.limits.count })] *)
Definition with_counter : StrictDIContainerBuilder :=
  buildStrictDIContainer
    {[ "Counter" := VObj (mkObject (Some []) (Some (FUser 0)) (Some Transient)) ]}.

End Plain.

(** ** Auxiliary definitions for the statements *)

(** Induction on function values, through the wrapped function. *)
Fixpoint Fn_nested_ind (P : Fn → Prop)
    (Huser : ∀ id, P (FUser id))
    (Hundef : ∀ cell, P (FSingleton cell None))
    (Hwrap : ∀ cell g, P g → P (FSingleton cell (Some g)))
    (f : Fn) : P f :=
  match f with
  | FUser id => Huser id
  | FSingleton cell None => Hundef cell
  | FSingleton cell (Some g) =>
      Hwrap cell g (Fn_nested_ind P Huser Hundef Hwrap g)
  end.

(** Every [instance] cell a function value refers to is among the first [n]
    cells. *)
Fixpoint fn_cells_below (n : nat) (f : Fn) : bool :=
  match f with
  | FUser _ => true
  | FSingleton cell fn =>
      bool_decide (cell < n)
      && match fn with
         | Some g => fn_cells_below n g
         | None => true
         end
  end.

Definition value_cells_below (n : nat) (v : value) : bool :=
  match v with
  | VObj o => if factory o is Some f then fn_cells_below n f else true
  | _ => true
  end.

(** The closures stored in a state were all made by [defineSingleton] before:
    their cells exist. *)
Definition state_cells_below (n : nat) (st : gmap string value) : Prop :=
  map_Forall (λ _ v, value_cells_below n v = true) st.

(** The machine with another application state. *)
Definition with_world {World} (w : World) (m : Machine World) : Machine World :=
  mkMachine w (cells m) (calls m).

(** The machine with further cells created after it. *)
Definition grow {World} (ext : list value) (m : Machine World) : Machine World :=
  mkMachine (world m) (cells m ++ ext) (calls m).

(** A computation that, run on a machine of [n] cells, neither reads nor
    writes a cell beyond them, and creates none. *)
Definition framed {World A} (n : nat) (c : M World A) : Prop :=
  ∀ ext m, length (cells m) = n →
    c (grow ext m) = (let '(r, m1) := c m in (r, grow ext m1))
    ∧ length (cells (c m).2) = n.

(** The builder operations, as data: [apply_operation] runs one. *)
Inductive Operation : Type :=
| OpRegister (token : DIToken) (v : value)
| OpReplace (token : DIToken) (v : value)
| OpRegisterFactory (token : DIToken) (v : value) (scope : Scope)
| OpReplaceFactory (token : DIToken) (v : value) (scope : Scope)
| OpReplaceFactoryArray (values : list FactoryWithToken)
| OpMerge (stateToMerge : gmap string value).

Definition apply_operation {World}
    (immer_finalize : gmap string value → DIToken → value → World → bool * World)
    (op : Operation)
    (b : StrictDIContainerBuilder) : M World StrictDIContainerBuilder :=
  match op with
  | OpRegister token v => register immer_finalize b token v
  | OpReplace token v => replace immer_finalize b token v
  | OpRegisterFactory token v scope => registerFactory b token v scope
  | OpReplaceFactory token v scope => replaceFactory b token v scope
  | OpReplaceFactoryArray values => replaceFactoryArray b values
  | OpMerge stateToMerge => merge b stateToMerge
  end.

(** The closures among the arguments of an operation refer to existing
    cells. *)
Definition operation_cells_below (n : nat) (op : Operation) : Prop :=
  match op with
  | OpRegister _ v | OpReplace _ v
  | OpRegisterFactory _ v _ | OpReplaceFactory _ v _ =>
      value_cells_below n v = true
  | OpReplaceFactoryArray values =>
      Forall (λ d, value_cells_below n (VObj (object d)) = true) values
  | OpMerge stateToMerge => state_cells_below n stateToMerge
  end.

(** A state without dependency cycles: every factory registration ranks above
    the tokens it depends on. *)
Definition ranked (rank : DIToken → nat) (st : gmap string value) : Prop :=
  ∀ t o deps d,
    st !! t = Some (VObj o) → dependencies o = Some deps → d ∈ deps →
    rank d < rank t.


(** The registration that [replaceFactory] stores for a descriptor object,
    on a machine that has [cells_before] cells. *)
Definition stored_registration (cells_before : nat) (o : JSObject)
    (scope : Scope) : JSObject :=
  match scope with
  | Singleton =>
      with_scope (with_factory o (FSingleton cells_before (factory o))) Singleton
  | _ => with_scope o scope
  end.



(** Tests on the result of a run. *)
Definition is_ret {A} (r : Outcome A) : bool :=
  if r is Ret _ then true else false.
Definition is_out_of_fuel {A} (r : Outcome A) : bool :=
  if r is OutOfFuel then true else false.
Definition throws_unregistered {A} (r : Outcome A) : bool :=
  match r with
  | Throw (UnregisteredTokenError _) => true
  | _ => false
  end.

(** The registration of the last element of the array that carries the
    token, if any. *)
Fixpoint latest_entry (t : DIToken) (values : list FactoryWithToken)
  : option JSObject :=
  match values with
  | [] => None
  | d :: rest =>
      match latest_entry t rest with
      | Some o => Some o
      | None => if decide (token d = t) then Some (object d) else None
      end
  end.

(** The value has a [dependencies] property, so that [resolve] takes it for a
    factory descriptor. *)
Definition has_dependencies (v : value) : bool :=
  if get_prop dependencies v is inr (Some _) then true else false.

(** The dependency tokens are keys of the state, which holds for them, in
    order, values that are not factory descriptors. *)
Definition registered_values (st : gmap string value) (deps : list DIToken)
    (vs : list value) : Prop :=
  Forall2 (λ d v, st !! d = Some v ∧ get_prop dependencies v = inr None) deps vs.

(** Every dependency of every factory registration is a key of the state. *)
Definition closed (st : gmap string value) : Prop :=
  ∀ t o deps d,
    st !! t = Some (VObj o) → dependencies o = Some deps → d ∈ deps →
    is_Some (st !! d).

(** The builders reached from the empty one by [register], of values that are
    not factory descriptors, and by [registerFactory]. *)
Inductive strict_chain (World : Type) : StrictDIContainerBuilder → Prop :=
| strict_empty : strict_chain World (buildStrictDIContainer ∅)
| strict_register b token v immer_finalize (m : Machine World) b' m' :
    strict_chain World b →
    has_dependencies v = false →
    register immer_finalize b token v m = (Ret b', m') →
    strict_chain World b'
| strict_registerFactory b token v scope (m : Machine World) b' m' :
    strict_chain World b →
    registerFactory b token v scope m = (Ret b', m') →
    strict_chain World b'.

(** The scope's cache holds instances of tokens registered with the scope
    ["scoped"] only. *)
Definition cache_scoped_only (c : DIContainer) (instances : gmap string value)
  : Prop :=
  ∀ t, is_Some (instances !! t) →
       get_scope_opt (default VUndefined (getState c !! t)) = Some Scoped.

(** What the state of the builder that an operation returns holds for the
    tokens the operation is about: the value as it is for [register] and
    [replace]; a factory registration with the dependencies of the descriptor
    and the scope tag for [registerFactory] and [replaceFactory]; the last
    element of the array that carries the token for [replaceFactoryArray];
    the registration of the merged state for [merge]. *)
Definition operation_registers (op : Operation) (st' : gmap string value)
  : Prop :=
  match op with
  | OpRegister t v | OpReplace t v => st' !! t = Some v
  | OpRegisterFactory t v sc | OpReplaceFactory t v sc =>
      ∃ reg, st' !! t = Some (VObj reg)
             ∧ scope reg = Some sc
             ∧ dependencies reg = dependencies (spread v)
  | OpReplaceFactoryArray values =>
      ∀ t o, latest_entry t values = Some o → st' !! t = Some (VObj o)
  | OpMerge stateToMerge =>
      ∀ t x, stateToMerge !! t = Some x → st' !! t = Some x
  end.

(** The container runs on the machine [m'] as it does on [m0], but for the
    cells [ext] that [m'] has in addition, which it leaves alone: [resolve]
    and [createScope] give the same result, call the same functions of the
    application with the same arguments and leave the same application state
    and the same cells. *)
Definition undisturbed {World}
    (user_fn : nat → list value → World → Completion * World)
    (c : DIContainer) (ext : list value) (m0 m' : Machine World) : Prop :=
  m' = grow ext m0
  ∧ ∀ fuel,
      (∀ token,
         resolve user_fn fuel c token m' =
           (let '(x, m1) := resolve user_fn fuel c token m0 in (x, grow ext m1)))
      ∧ (∀ callback,
           createScope user_fn fuel c callback m' =
             (let '(x, m1) := createScope user_fn fuel c callback m0 in
              (x, grow ext m1))).

(** The tokens an operation is about. *)
Definition operation_tokens (op : Operation) : list DIToken :=
  match op with
  | OpRegister t _ | OpReplace t _
  | OpRegisterFactory t _ _ | OpReplaceFactory t _ _ => [t]
  | OpReplaceFactoryArray values => token <$> values
  | OpMerge stateToMerge => elements (dom stateToMerge)
  end.

(** ** Properties *)

Section Properties.

Context {World : Type} (user_fn : nat → list value → World → Completion * World)
        (immer_finalize :
           gmap string value → DIToken → value → World → bool * World).

Implicit Types (m : Machine World) (st : gmap string value) (v : value)
  (b : StrictDIContainerBuilder) (c : DIContainer) (f : Fn).

(** *** Unfolding equations of [resolve] *)

Lemma resolve_unregistered fuel c token m :
  getState c !! token = None →
  resolve user_fn (S fuel) c token m = (Throw (UnregisteredTokenError token), m).
Proof. intros H. simpl. by rewrite H. Qed.

Lemma resolve_value fuel c token v m :
  getState c !! token = Some v →
  get_prop dependencies v = inr None →
  resolve user_fn (S fuel) c token m = (Ret v, m).
Proof. intros H Hd. simpl. by rewrite H, Hd. Qed.

Lemma resolve_factory fuel c token o deps f m :
  getState c !! token = Some (VObj o) →
  dependencies o = Some deps →
  factory o = Some f →
  resolve user_fn (S fuel) c token m =
    (let* args := mapM (resolve user_fn fuel c) deps in call user_fn f args) m.
Proof. intros H Hd Hf. simpl. rewrite H. simpl. by rewrite Hd, Hf. Qed.

Lemma resolve_nullish fuel c token v m :
  getState c !! token = Some v →
  nullish v = true →
  resolve user_fn (S fuel) c token m = (Throw TypeError, m).
Proof. intros H Hn. simpl. rewrite H. by destruct v. Qed.

(** *** More fuel does not change a result *)

Lemma mapM_more_fuel {A B} (g h : A → M World B) l :
  (∀ x m r m', x ∈ l → g x m = (r, m') → r ≠ OutOfFuel → h x m = (r, m')) →
  ∀ m r m', mapM g l m = (r, m') → r ≠ OutOfFuel → mapM h l m = (r, m').
Proof.
  induction l as [|x l IH]; intros Hgh m r m' Hrun Hr; simpl in *; [done|].
  unfold bind in *.
  destruct (g x m) as [[y| e|] m1] eqn:Hx.
  - rewrite (Hgh x m (Ret y) m1); [|set_solver|done|done].
    destruct (mapM g l m1) as [[ys|e|] m2] eqn:Hl.
    + rewrite (IH (λ x' m0 r0 m0' Hin, Hgh x' m0 r0 m0' ltac:(set_solver))
                 m1 (Ret ys) m2); done.
    + rewrite (IH (λ x' m0 r0 m0' Hin, Hgh x' m0 r0 m0' ltac:(set_solver))
                 m1 (Throw e) m2); done.
    + by simplify_eq.
  - rewrite (Hgh x m (Throw e) m1); [done|set_solver|done|done].
  - by simplify_eq.
Qed.

Lemma resolve_S_fuel fuel c token m r m' :
  resolve user_fn fuel c token m = (r, m') → r ≠ OutOfFuel →
  resolve user_fn (S fuel) c token m = (r, m').
Proof.
  revert token m r m'. induction fuel as [|fuel IH]; intros token m r m' Hrun Hr.
  { simpl in Hrun. unfold out_of_fuel in Hrun. by simplify_eq. }
  change (resolve user_fn (S fuel) c token m) with
    (match getState c !! token with
     | None => throw (UnregisteredTokenError token)
     | Some state =>
         match get_prop dependencies state with
         | inl e => throw e
         | inr None => ret state
         | inr (Some deps) =>
             let* args := mapM (resolve user_fn fuel c) deps in
             match get_prop factory state with
             | inr (Some f) => call user_fn f args
             | _ => throw TypeError
             end
         end
     end m) in Hrun.
  change (resolve user_fn (S (S fuel)) c token m) with
    (match getState c !! token with
     | None => throw (UnregisteredTokenError token)
     | Some state =>
         match get_prop dependencies state with
         | inl e => throw e
         | inr None => ret state
         | inr (Some deps) =>
             let* args := mapM (resolve user_fn (S fuel) c) deps in
             match get_prop factory state with
             | inr (Some f) => call user_fn f args
             | _ => throw TypeError
             end
         end
     end m).
  destruct (getState c !! token) as [state|]; [|done].
  destruct (get_prop dependencies state) as [e|[deps|]]; [done| |done].
  unfold bind in *.
  destruct (mapM (resolve user_fn fuel c) deps m) as [[args|e|] m1] eqn:Hargs.
  - by rewrite (mapM_more_fuel _ (resolve user_fn (S fuel) c) deps
               (λ x m0 r0 m0' _, IH x m0 r0 m0') m (Ret args) m1).
  - by rewrite (mapM_more_fuel _ (resolve user_fn (S fuel) c) deps
               (λ x m0 r0 m0' _, IH x m0 r0 m0') m (Throw e) m1).
  - by simplify_eq.
Qed.

Lemma resolve_more_fuel fuel fuel' c token m r m' :
  resolve user_fn fuel c token m = (r, m') → r ≠ OutOfFuel → fuel ≤ fuel' →
  resolve user_fn fuel' c token m = (r, m').
Proof.
  intros Hrun Hr Hle. induction Hle as [|k _ IH]; [done|].
  by apply resolve_S_fuel.
Qed.

(** *** Cells created later do not matter *)

Lemma framed_ret {A} n (a : A) : framed n (ret (World:=World) a).
Proof. by intros ext m Hn. Qed.

Lemma framed_throw {A} n e : framed n (throw (World:=World) (A:=A) e).
Proof. by intros ext m Hn. Qed.

Lemma framed_out_of_fuel {A} n : framed n (out_of_fuel (World:=World) (A:=A)).
Proof. by intros ext m Hn. Qed.

Lemma framed_bind {A B} n (x : M World A) (k : A → M World B) :
  framed n x → (∀ a, framed n (k a)) → framed n (bind x k).
Proof.
  intros Hx Hk ext m Hn. destruct (Hx ext m Hn) as [Hrun Hlen].
  unfold bind. rewrite Hrun. destruct (x m) as [[a|e|] m1]; simpl in *; [|done..].
  apply Hk, Hlen.
Qed.

Lemma framed_mapM {A B} n (g : A → M World B) l :
  (∀ x, framed n (g x)) → framed n (mapM g l).
Proof.
  intros Hg. induction l as [|x l IH]; simpl.
  - apply framed_ret.
  - apply framed_bind; [apply Hg|]. intros y.
    apply framed_bind; [apply IH|]. intros ys. apply framed_ret.
Qed.

Lemma framed_read_cell n cell : cell < n → framed n (read_cell (World:=World) cell).
Proof.
  intros Hc ext m Hn. split; [|done]. unfold read_cell, grow; simpl.
  by rewrite lookup_app_l by lia.
Qed.

Lemma framed_write_cell n cell v :
  cell < n → framed n (write_cell (World:=World) cell v).
Proof.
  intros Hc ext m Hn. unfold write_cell, grow; simpl. split.
  - by rewrite insert_app_l by lia.
  - by rewrite length_insert.
Qed.

Lemma framed_call_user n id args : framed n (call_user user_fn id args).
Proof.
  intros ext m Hn. unfold call_user, grow; simpl.
  by destruct (user_fn id args (world m)) as [r w].
Qed.

Lemma framed_call n f args :
  fn_cells_below n f = true → framed n (call user_fn f args).
Proof.
  induction f as [id|cell|cell g IH] using Fn_nested_ind; simpl.
  - intros _. apply framed_call_user.
  - intros [Hc%bool_decide_eq_true _]%andb_true_iff.
    apply framed_bind; [by apply framed_read_cell|].
    intros instance. destruct (nullish instance); [|apply framed_ret].
    apply framed_bind; [apply framed_throw|]. intros r.
    apply framed_bind; [by apply framed_write_cell|]. intros _. apply framed_ret.
  - intros [Hc%bool_decide_eq_true Hg]%andb_true_iff.
    apply framed_bind; [by apply framed_read_cell|].
    intros instance. destruct (nullish instance); [|apply framed_ret].
    apply framed_bind; [by apply IH|]. intros r.
    apply framed_bind; [by apply framed_write_cell|]. intros _. apply framed_ret.
Qed.

Lemma framed_resolve n fuel c token :
  state_cells_below n (getState c) → framed n (resolve user_fn fuel c token).
Proof.
  intros Hst. revert token. induction fuel as [|fuel IH]; intros token; simpl.
  { apply framed_out_of_fuel. }
  destruct (getState c !! token) as [state|] eqn:Hlook; [|apply framed_throw].
  destruct (get_prop dependencies state) as [e|[deps|]] eqn:Hdeps;
    [apply framed_throw| |apply framed_ret].
  apply framed_bind; [by apply framed_mapM|]. intros args.
  destruct (get_prop factory state) as [e|[f|]] eqn:Hf; try apply framed_throw.
  apply framed_call. specialize (Hst token state Hlook).
  destruct state; simplify_eq/=. by rewrite Hf in Hst.
Qed.

(** What a builder operation does to the machine: nothing, or one new
    cell. *)
Lemma replaceFactory_machine b token v scope m r m' :
  replaceFactory b token v scope m = (r, m') →
  m' = m ∨ (m' = grow [VUndefined] m ∧ scope = Singleton ∧ ∃ b', r = Ret b').
Proof.
  unfold replaceFactory. destruct (typeof_object v).
  2:{ simpl. unfold throw. intros; simplify_eq. by left. }
  simpl. destruct scope; unfold bind, ret, throw; simpl;
    try (intros; simplify_eq; by left).
  destruct (get_prop factory v) as [e|fn]; [intros; simplify_eq; by left|].
  unfold defineSingleton, bind, alloc_cell, ret. simpl.
  intros; simplify_eq. right. eauto.
Qed.

Lemma check_dependencies_machine st deps m r m' :
  check_dependencies st deps m = (r, m') → m' = m.
Proof.
  revert m r m'. induction deps as [|dep rest IH]; simpl; intros m r m'.
  - unfold ret. by intros; simplify_eq.
  - destruct (token_in dep st); [apply IH|]. unfold throw. by intros; simplify_eq.
Qed.

Lemma registerFactory_machine b token v scope m r m' :
  registerFactory b token v scope m = (r, m') →
  m' = m ∨ (m' = grow [VUndefined] m ∧ ∃ b', r = Ret b').
Proof.
  unfold registerFactory.
  destruct (negb (typeof_object v) || negb (truthy v)).
  { unfold throw. intros; simplify_eq. by left. }
  destruct (token_in token (containerState b)).
  { unfold throw. intros; simplify_eq. by left. }
  destruct (get_prop dependencies v) as [e|[deps|]];
    try (unfold throw; intros; simplify_eq; by left).
  unfold bind.
  destruct (check_dependencies (containerState b) deps m) as [[[]|e|] m1] eqn:Hchk;
    apply check_dependencies_machine in Hchk as ->;
    try (intros; simplify_eq; by left).
  intros Hrun. apply replaceFactory_machine in Hrun as [->|(-> & _ & ?)]; eauto.
Qed.

Lemma token_in_true token st : token_in token st = true ↔ token ∈ dom st.
Proof.
  unfold token_in. rewrite elem_of_dom.
  destruct (st !! token); split; intros H; try done; by destruct H.
Qed.

Lemma token_in_false token st : token_in token st = false ↔ st !! token = None.
Proof. unfold token_in. by destruct (st !! token). Qed.

(** immer's walk ends or does not end; it throws nothing, runs no function
    of the application and leaves the cells alone. *)
Lemma finalize_machine st token v m r m1 :
  finalize immer_finalize st token v m = (r, m1) →
  (r = Ret tt ∨ r = OutOfFuel) ∧ m1 = with_world (world m1) m.
Proof.
  unfold finalize. destruct m as [w cs tr]. simpl.
  destruct (immer_finalize st token v w) as [[] w1]; intros; simplify_eq/=; auto.
Qed.

Lemma finalize_cells st token v m r m1 :
  finalize immer_finalize st token v m = (r, m1) →
  cells m1 = cells m ∧ calls m1 = calls m.
Proof. intros (_ & ->)%finalize_machine. done. Qed.

Lemma replace_run b token v m :
  replace immer_finalize b token v m =
    (map_outcome
       (λ _, buildStrictDIContainer (<[token := v]> (containerState b)))
       (finalize immer_finalize (containerState b) token v m).1,
     (finalize immer_finalize (containerState b) token v m).2).
Proof.
  unfold replace, bind.
  by destruct (finalize immer_finalize (containerState b) token v m) as [[[]|e|] m1].
Qed.

Lemma replace_returns b token v m b' m' :
  replace immer_finalize b token v m = (Ret b', m') →
  finalize immer_finalize (containerState b) token v m = (Ret tt, m')
  ∧ b' = buildStrictDIContainer (<[token := v]> (containerState b)).
Proof.
  rewrite replace_run.
  destruct (finalize immer_finalize (containerState b) token v m) as [[[]|e|] m1]; simpl;
    intros; by simplify_eq.
Qed.

Lemma replace_ended b token v m m1 :
  finalize immer_finalize (containerState b) token v m = (Ret tt, m1) →
  replace immer_finalize b token v m =
    (Ret (buildStrictDIContainer (<[token := v]> (containerState b))), m1).
Proof. intros Hwalk. by rewrite replace_run, Hwalk. Qed.

Lemma replace_throws b token v m e m' :
  replace immer_finalize b token v m = (Throw e, m') → False.
Proof.
  rewrite replace_run.
  pose proof (finalize_machine (containerState b) token v m) as Hwalk.
  destruct (finalize immer_finalize (containerState b) token v m) as [[[]|e1|] m1]; simpl; try done.
  by destruct (Hwalk _ _ eq_refl) as [[?|?] _].
Qed.

Lemma register_returns b token v m b' m' :
  register immer_finalize b token v m = (Ret b', m') →
  containerState b !! token = None
  ∧ finalize immer_finalize (containerState b) token v m = (Ret tt, m')
  ∧ b' = buildStrictDIContainer (<[token := v]> (containerState b)).
Proof.
  unfold register.
  destruct (token_in token (containerState b)) eqn:Hnew; [done|].
  apply token_in_false in Hnew. intros [? ?]%replace_returns. done.
Qed.

Lemma register_throws b token v m e m' :
  register immer_finalize b token v m = (Throw e, m') →
  e = DuplicateTokenError token ∧ m' = m
  ∧ token_in token (containerState b) = true.
Proof.
  unfold register.
  destruct (token_in token (containerState b)) eqn:Hnew.
  - unfold throw. intros; by simplify_eq.
  - by intros ?%replace_throws.
Qed.

Lemma register_machine b token v m r m' :
  register immer_finalize b token v m = (r, m') →
  m' = m ∨ finalize immer_finalize (containerState b) token v m = (map_outcome (λ _, tt) r, m').
Proof.
  unfold register. destruct (token_in token (containerState b)).
  - unfold throw. intros; simplify_eq. by left.
  - rewrite replace_run. intros; simplify_eq. right.
    destruct (finalize immer_finalize (containerState b) token v m) as [[[]|e|] m1]; done.
Qed.

(** What an operation does to the cells and to the history of calls: it runs
    no function of the application, and it creates at most the cell of one
    singleton closure. *)
Lemma apply_operation_machine op b m r m' :
  apply_operation immer_finalize op b m = (r, m') →
  m' = with_world (world m') m
  ∨ (m' = grow [VUndefined] (with_world (world m') m) ∧ ∃ b', r = Ret b').
Proof.
  assert (∀ m0 : Machine World, m0 = with_world (world m0) m0) as Hsame
    by (by intros []).
  destruct op as [token v|token v|token v sc|token v sc|values|st]; simpl.
  - intros [->|Hwalk]%register_machine; [by auto|].
    apply finalize_machine in Hwalk as (_ & Hm). by left.
  - rewrite replace_run. intros; simplify_eq.
    destruct (finalize immer_finalize (containerState b) token v m) as [r0 m1] eqn:Hwalk; simpl.
    apply finalize_machine in Hwalk as (_ & Hm). by left.
  - intros [->|[-> ?]]%registerFactory_machine; simpl; auto.
  - intros [->|(-> & _ & ?)]%replaceFactory_machine; simpl; auto.
  - unfold replaceFactoryArray, ret. intros; simplify_eq; auto.
  - unfold merge, ret. intros; simplify_eq; auto.
Qed.

Lemma grow_nil m : grow [] m = m.
Proof. destruct m. unfold grow; simpl. by rewrite app_nil_r. Qed.

Lemma framed_scopedResolve n fuel c instances token :
  state_cells_below n (getState c) →
  framed n (scopedResolve user_fn fuel c instances token).
Proof.
  intros Hst. unfold scopedResolve.
  destruct (instances !! token); [apply framed_ret|].
  apply framed_bind; [by apply framed_resolve|]. intros resolved.
  case_decide; apply framed_ret.
Qed.

Lemma framed_run_callback n fuel c callback instances seen :
  state_cells_below n (getState c) →
  framed n (run_callback user_fn fuel c callback instances seen).
Proof.
  intros Hst. revert instances seen.
  induction callback as [vs|e|token k IH]; intros instances seen; simpl.
  - apply framed_ret.
  - apply framed_throw.
  - intros ext m Hn.
    destruct (framed_scopedResolve n fuel c instances token Hst ext m Hn)
      as [Hrun Hlen].
    rewrite Hrun.
    destruct (scopedResolve user_fn fuel c instances token m)
      as [[[v instances']|e|] m1]; simpl in *; [| |done].
    + by apply IH.
    + by apply IH.
Qed.

(** *** Registration *)



Lemma check_dependencies_throws st deps m e m' :
  check_dependencies st deps m = (Throw e, m') →
  ∃ dep, e = MissingDependencyError dep ∧ dep ∈ deps ∧ st !! dep = None.
Proof.
  clear immer_finalize.
  induction deps as [|dep rest IH]; simpl; [done|].
  destruct (token_in dep st) eqn:Hin.
  - intros (d & ? & ? & ?)%IH. exists d. set_solver.
  - unfold throw. intros; simplify_eq. exists dep.
    split; [done|]. split; [set_solver|]. by apply token_in_false.
Qed.

Lemma replaceFactory_object b token o scope m :
  replaceFactory b token (VObj o) scope m =
    (Ret (buildStrictDIContainer
            (<[token := VObj (stored_registration (length (cells m)) o scope)]>
               (containerState b))),
     match scope with Singleton => grow [VUndefined] m | _ => m end).
Proof. by destruct scope. Qed.


(** C3, as amended: for every state, every token that is not yet a key of it
    and every value that is neither [null] nor [undefined], has no
    [dependencies] property and for which immer's walk ends (no plain object
    below it is in a cycle), [register] succeeds, on the machine that the
    walk leaves (the plain objects and arrays below the value frozen), and
    [resolve] of the token on the container of the resulting builder returns
    that very value, with any positive recursion budget and without running
    anything more.  When the walk does not end, neither does [register]: no
    builder is returned. *)
Theorem register_then_resolve b token v fuel m r m1 :
  token_in token (containerState b) = false →
  get_prop dependencies v = inr None →
  finalize immer_finalize (containerState b) token v m = (r, m1) →
  (r = Ret tt →
     (let* b' := register immer_finalize b token v in
      resolve user_fn (S fuel) (getResult b') token) m = (Ret v, m1))
  ∧ (r ≠ Ret tt →
     register immer_finalize b token v m = (OutOfFuel, m1)).
Proof.
  intros Hnew Hplain Hwalk. unfold bind, register. rewrite Hnew, replace_run, Hwalk.
  split.
  - intros ->. cbn [map_outcome fst snd]. apply resolve_value; [|done].
    simpl. apply lookup_insert_eq.
  - intros Hr. apply finalize_machine in Hwalk as [[->| ->] _]; done.
Qed.

Lemma registerFactory_returns b token v scope m b' m' :
  registerFactory b token v scope m = (Ret b', m') →
  ∃ o, v = VObj o
       ∧ containerState b !! token = None
       ∧ containerState b' =
           <[token := VObj (stored_registration (length (cells m)) o scope)]>
             (containerState b)
       ∧ m' = match scope with Singleton => grow [VUndefined] m | _ => m end.
Proof.
  unfold registerFactory.
  destruct (negb (typeof_object v) || negb (truthy v)); [done|].
  destruct (token_in token (containerState b)) eqn:Hnew; [done|].
  apply token_in_false in Hnew.
  destruct v as [| | | | | |l|o]; try done. simpl.
  destruct (dependencies o) as [deps|]; [|done]. unfold bind.
  destruct (check_dependencies (containerState b) deps m) as [[[]|e|] m1] eqn:Hchk;
    [|done..].
  apply check_dependencies_machine in Hchk as ->.
  rewrite replaceFactory_object. intros; simplify_eq. eauto 6.
Qed.

(** C6: a [register] or [registerFactory] call that is rejected leaves the
    machine as it was, so that the builder's container resolves every token
    as before; a call that succeeds adds exactly one token, which was not a
    key, and keeps every other registration. *)
Theorem strict_registration_all_or_nothing b token v scope m :
  (∀ e m',
     register immer_finalize b token v m = (Throw e, m')
     ∨ registerFactory b token v scope m = (Throw e, m') →
     m' = m
     ∧ ∀ fuel t, resolve user_fn fuel (getResult b) t m'
                 = resolve user_fn fuel (getResult b) t m)
  ∧ (∀ b' m',
       register immer_finalize b token v m = (Ret b', m')
       ∨ registerFactory b token v scope m = (Ret b', m') →
       containerState b !! token = None
       ∧ dom (containerState b') = {[token]} ∪ dom (containerState b)
       ∧ size (containerState b') = S (size (containerState b))
       ∧ ∀ t, t ≠ token → containerState b' !! t = containerState b !! t).
Proof.
  split.
  - intros e m' Hrej. assert (m' = m) as ->; [|done].
    destruct Hrej as [Hrun|Hrun].
    + by apply register_throws in Hrun as (_ & ? & _).
    + apply registerFactory_machine in Hrun as [->|(_ & ? & ?)]; done.
  - intros b' m' Hok.
    assert (∃ x, containerState b !! token = None
                 ∧ containerState b' = <[token := x]> (containerState b))
      as (x & Hnew & ->).
    { destruct Hok as [Hrun|Hrun].
      - apply register_returns in Hrun as (? & _ & ->). eauto.
      - apply registerFactory_returns in Hrun as (o & _ & ? & ? & _). eauto. }
    split; [done|]. split; [by rewrite dom_insert_L|].
    split; [by apply map_size_insert_None|].
    intros t Ht. by apply lookup_insert_ne.
Qed.

Lemma replaceFactory_installs b token v sc m b' m' :
  replaceFactory b token v sc m = (Ret b', m') →
  ∃ reg, containerState b' = <[token := VObj reg]> (containerState b)
         ∧ scope reg = Some sc
         ∧ dependencies reg = dependencies (spread v).
Proof.
  unfold replaceFactory. destruct (negb (typeof_object v)); [done|].
  destruct sc; unfold bind, ret; simpl.
  - intros; simplify_eq/=. eauto.
  - destruct (get_prop factory v) as [e|fn]; [done|].
    unfold defineSingleton, bind, alloc_cell, ret. simpl.
    intros; simplify_eq/=. eauto.
  - intros; simplify_eq/=. eauto.
Qed.

Lemma registerFactory_installs b token v sc m b' m' :
  registerFactory b token v sc m = (Ret b', m') →
  ∃ reg, containerState b' = <[token := VObj reg]> (containerState b)
         ∧ scope reg = Some sc
         ∧ dependencies reg = dependencies (spread v).
Proof.
  unfold registerFactory.
  destruct (negb (typeof_object v) || negb (truthy v)); [done|].
  destruct (token_in token (containerState b)); [done|].
  destruct (get_prop dependencies v) as [e|[deps|]]; try done. unfold bind.
  destruct (check_dependencies (containerState b) deps m) as [[[]|e|] m1] eqn:Hchk;
    [|done..].
  apply replaceFactory_installs.
Qed.

Lemma replaceFactoryArray_lookup values st t :
  foldl (λ draft d, <[token d := VObj (object d)]> draft) st values !! t =
    match latest_entry t values with
    | Some o => Some (VObj o)
    | None => st !! t
    end.
Proof.
  revert st. induction values as [|d values IH]; intros st; simpl; [done|].
  rewrite IH. destruct (latest_entry t values); [done|].
  destruct (decide (token d = t)) as [<-|Hne].
  - apply lookup_insert_eq.
  - by apply lookup_insert_ne.
Qed.

Lemma latest_entry_None t values :
  t ∉ token <$> values → latest_entry t values = None.
Proof.
  induction values as [|d values IH]; simpl; [done|].
  intros [Hne Hrest]%not_elem_of_cons. rewrite (IH Hrest).
  by destruct (decide (token d = t)).
Qed.

(** What the builder returned by an operation holds. *)
Lemma apply_operation_state op b m b' m' :
  apply_operation immer_finalize op b m = (Ret b', m') →
  operation_registers op (containerState b')
  ∧ ∀ t, t ∉ operation_tokens op →
         containerState b' !! t = containerState b !! t.
Proof.
  destruct op as [t0 v|t0 v|t0 v sc|t0 v sc|values|st2]; simpl.
  - intros (_ & _ & ->)%register_returns. simpl. split.
    + apply lookup_insert_eq.
    + intros t Ht. apply lookup_insert_ne. set_solver.
  - intros (_ & ->)%replace_returns. simpl. split.
    + apply lookup_insert_eq.
    + intros t Ht. apply lookup_insert_ne. set_solver.
  - intros (reg & -> & ? & ?)%registerFactory_installs. split.
    + exists reg. by rewrite lookup_insert_eq.
    + intros t Ht. apply lookup_insert_ne. set_solver.
  - intros (reg & -> & ? & ?)%replaceFactory_installs. split.
    + exists reg. by rewrite lookup_insert_eq.
    + intros t Ht. apply lookup_insert_ne. set_solver.
  - unfold replaceFactoryArray, ret. intros; simplify_eq/=. split.
    + intros t o Ho. by rewrite replaceFactoryArray_lookup, Ho.
    + intros t Ht. by rewrite replaceFactoryArray_lookup, latest_entry_None.
  - unfold merge, ret. intros; simplify_eq/=. split.
    + intros t x Hx. by apply lookup_union_Some_l.
    + intros t Ht. apply lookup_union_r. apply not_elem_of_dom.
      by rewrite <- elem_of_elements.
Qed.

(** C7, as amended.  A builder operation runs no function of the
    application.  When it returns, the builder it returns holds the
    registrations the operation is about, and for every other token what the
    receiver holds; the receiver's state is a value that nothing changes.  A
    container obtained from the receiver runs after the operation exactly as
    it would have run before, on the application's objects as the operation
    has left them: same result of [resolve] and [createScope], same calls of
    the application, same cells, the cell of a new singleton closure
    untouched.  So it runs exactly as it did before whenever the operation
    has left the application's objects as they were (immer has frozen none
    of them); [merge], an object spread, leaves the whole machine as it
    was. *)
Theorem operations_do_not_disturb_containers op b m r m' :
  state_cells_below (length (cells m)) (containerState b) →
  apply_operation immer_finalize op b m = (r, m') →
  calls m' = calls m
  ∧ (∀ b', r = Ret b' →
       operation_registers op (containerState b')
       ∧ ∀ t, t ∉ operation_tokens op →
              containerState b' !! t = containerState b !! t)
  ∧ (∀ stateToMerge, op = OpMerge stateToMerge → m' = m)
  ∧ ∃ ext,
      undisturbed user_fn (getResult b) ext (with_world (world m') m) m'
      ∧ (world m' = world m → undisturbed user_fn (getResult b) ext m m').
Proof.
  intros Hcells Hop.
  pose proof (apply_operation_machine _ _ _ _ _ Hop) as Hm.
  assert (∃ ext, m' = grow ext (with_world (world m') m)) as [ext Hext].
  { destruct Hm as [Hm|[Hm _]]; [|by eexists].
    exists []. by rewrite grow_nil. }
  split; [by rewrite Hext|]. split.
  { intros b' ->. by apply (apply_operation_state op b m b' m'). }
  split.
  { intros stateToMerge ->. simpl in Hop. unfold merge, ret in Hop.
    by simplify_eq. }
  exists ext.
  assert (∀ m0, length (cells m0) = length (cells m) →
                undisturbed user_fn (getResult b) ext m0 (grow ext m0))
    as Hframe.
  { intros m0 Hlen. split; [done|]. intros fuel. split.
    - intros token.
      by apply (framed_resolve (length (cells m)) fuel (getResult b) token Hcells).
    - intros callback.
      by apply (framed_run_callback (length (cells m)) fuel (getResult b)
                  callback ∅ [] Hcells). }
  split.
  - pose proof (Hframe (with_world (world m') m) eq_refl) as Hrun.
    by rewrite <- Hext in Hrun.
  - intros Hsame. pose proof (Hframe m eq_refl) as Hrun.
    assert (with_world (world m') m = m) as Hm0
      by (rewrite Hsame; by destruct m).
    rewrite Hm0 in Hext. by rewrite <- Hext in Hrun.
Qed.

(** *** [replaceFactoryArray] *)







Lemma replaceFactoryArray_dom values st t :
  t ∈ dom (foldl (λ draft d, <[token d := VObj (object d)]> draft) st values)
  ↔ t ∈ dom st ∨ ∃ d, d ∈ values ∧ token d = t.
Proof.
  revert st. induction values as [|d values IH]; intros st; simpl.
  - split; [by left|]. intros [?|(d & Hd & _)]; [done|]. by apply elem_of_nil in Hd.
  - rewrite IH, dom_insert_L, elem_of_union, elem_of_singleton. split.
    + intros [[->|?]|(d' & ? & ?)]; [right; exists d|by left|right; exists d'];
        (split; [|done]).
      * apply list_elem_of_here.
      * by apply list_elem_of_further.
    + intros [?|(d' & [->|?]%elem_of_cons & ?)];
        [by left; right|by left; left|right; by exists d'].
Qed.



(** *** The scoped resolver *)



Lemma scopedResolve_hit fuel c instances token v m :
  instances !! token = Some v →
  scopedResolve user_fn fuel c instances token m = (Ret (v, instances), m).
Proof. intros Hhit. unfold scopedResolve. by rewrite Hhit. Qed.

Lemma scopedResolve_miss fuel c instances token m :
  instances !! token = None →
  scopedResolve user_fn fuel c instances token m =
    match resolve user_fn fuel c token m with
    | (Ret v, m') =>
        (Ret (v, if decide (get_scope_opt (default VUndefined (getState c !! token))
                            = Some Scoped)
                 then <[token := v]> instances else instances), m')
    | (Throw e, m') => (Throw e, m')
    | (OutOfFuel, m') => (OutOfFuel, m')
    end.
Proof.
  intros Hmiss. unfold scopedResolve. rewrite Hmiss. unfold bind.
  destruct (resolve user_fn fuel c token m) as [[v|e|] m1]; [|done..].
  by destruct (decide _).
Qed.

(** C10: the scoped resolver looks into the scope's cache, and stores into
    it, only at the token it is called with: what it returns and does depends
    on the cache at that token alone, and the cache it leaves differs from
    the one it found at most at that token.  Called with a factory's token
    that is not cached, it resolves the factory's dependencies with the
    ordinary [resolve], whatever the cache holds for them: a scoped
    dependency is constructed again, neither taken from the cache nor stored
    into it. *)
Theorem scoped_cache_only_for_requested_token fuel c instances token m :
  (∀ instances2 : gmap string value,
     instances2 !! token = instances !! token →
     map_outcome fst (scopedResolve user_fn fuel c instances2 token m).1
     = map_outcome fst (scopedResolve user_fn fuel c instances token m).1
     ∧ (scopedResolve user_fn fuel c instances2 token m).2
       = (scopedResolve user_fn fuel c instances token m).2)
  ∧ (∀ v instances' m',
       scopedResolve user_fn fuel c instances token m = (Ret (v, instances'), m') →
       ∀ dep, dep ≠ token → instances' !! dep = instances !! dep)
  ∧ (∀ fuel' o deps f,
       fuel = S fuel' →
       getState c !! token = Some (VObj o) →
       dependencies o = Some deps →
       factory o = Some f →
       instances !! token = None →
       scopedResolve user_fn fuel c instances token m =
         match (let* args := mapM (resolve user_fn fuel' c) deps in
                call user_fn f args) m with
         | (Ret v, m') =>
             (Ret (v, if decide (scope o = Some Scoped)
                      then <[token := v]> instances else instances), m')
         | (Throw e, m') => (Throw e, m')
         | (OutOfFuel, m') => (OutOfFuel, m')
         end).
Proof.
  split; [|split].
  - intros instances2 Hsame.
    destruct (instances !! token) as [cached|] eqn:Hcache.
    + by rewrite !(scopedResolve_hit _ _ _ _ cached).
    + rewrite !scopedResolve_miss by done.
      destruct (resolve user_fn fuel c token m) as [[v|e|] m1]; done.
  - intros v instances' m'.
    destruct (instances !! token) as [cached|] eqn:Hcache.
    + rewrite (scopedResolve_hit _ _ _ _ cached) by done. by intros; simplify_eq.
    + rewrite scopedResolve_miss by done.
      destruct (resolve user_fn fuel c token m) as [[v1|e|] m1]; [|done..].
      intros Heq dep Hdep. simplify_eq.
      destruct (decide _); [|done]. by rewrite lookup_insert_ne.
  - intros fuel' o deps f -> Hlook Hdeps Hf Hmiss.
    rewrite scopedResolve_miss by done.
    rewrite (resolve_factory fuel' c token o deps f m) by done.
    rewrite Hlook.
    change (get_scope_opt (default VUndefined (Some (VObj o)))) with (scope o).
    by destruct (bind _ _ m) as [[v|e|] m1].
Qed.

(** Every scoped token the callback has been answered for is in the cache,
    with the answer it got. *)
Lemma scopedResolve_keeps_answers fuel c instances seen token v instances' m m' :
  (∀ t w, (t, w) ∈ seen →
          get_scope_opt (default VUndefined (getState c !! t)) = Some Scoped →
          instances !! t = Some w) →
  scopedResolve user_fn fuel c instances token m = (Ret (v, instances'), m') →
  ∀ t w, (t, w) ∈ seen ++ [(token, v)] →
         get_scope_opt (default VUndefined (getState c !! t)) = Some Scoped →
         instances' !! t = Some w.
Proof.
  intros Hinv Hrun t w Hin Hscoped.
  destruct (instances !! token) as [cached|] eqn:Hcache.
  - rewrite (scopedResolve_hit _ _ _ _ cached) in Hrun by done. simplify_eq.
    apply elem_of_app in Hin as [Hin|Hin]; [by apply Hinv|].
    apply list_elem_of_singleton in Hin. by simplify_eq.
  - rewrite scopedResolve_miss in Hrun by done.
    destruct (resolve user_fn fuel c token m) as [[v1|e|] m1]; [|done..].
    simplify_eq. apply elem_of_app in Hin as [Hin|Hin].
    + specialize (Hinv t w Hin Hscoped).
      destruct (decide _); [|done].
      rewrite lookup_insert_ne; [done|]. intros ->. congruence.
    + apply list_elem_of_singleton in Hin. simplify_eq.
      rewrite decide_True by done. apply lookup_insert_eq.
Qed.

Lemma run_callback_answers fuel c callback instances seen m vs seen' m' :
  (∀ t w, (t, w) ∈ seen →
          get_scope_opt (default VUndefined (getState c !! t)) = Some Scoped →
          instances !! t = Some w) →
  run_callback user_fn fuel c callback instances seen m = (Ret (vs, seen'), m') →
  ∃ instances' : gmap string value,
    ∀ t w, (t, w) ∈ seen' →
           get_scope_opt (default VUndefined (getState c !! t)) = Some Scoped →
           instances' !! t = Some w.
Proof.
  revert instances seen m.
  induction callback as [vs0|e|token k IH]; intros instances seen m Hinv; simpl.
  - unfold ret. intros; simplify_eq. eauto.
  - done.
  - destruct (scopedResolve user_fn fuel c instances token m)
      as [[[v instances1]|e|] m1] eqn:Hstep; [| |done].
    + apply IH. by eapply scopedResolve_keeps_answers.
    + by apply IH.
Qed.

(** C5, as amended: for a token registered with scope ["scoped"], all the
    answers the scoped resolver gives for it within one [createScope]
    callback are the same instance, since once the token is in the scope's
    cache the resolver returns the cached instance and runs nothing; each
    [createScope] starts from an empty cache, so that the first resolution of
    the token in a scope is an ordinary [resolve] on the machine as it is
    then: it constructs the instance anew, taking nothing from an earlier
    scope (and the ordinary [resolve] has no cache to take from).  The
    instances of two scopes are therefore the results of two separate
    constructions. *)
Theorem scoped_instances_per_scope fuel c token m :
  get_scope_opt (default VUndefined (getState c !! token)) = Some Scoped →
  (∀ callback vs seen m',
     createScope user_fn fuel c callback m = (Ret (vs, seen), m') →
     ∀ v w, (token, v) ∈ seen → (token, w) ∈ seen → v = w)
  ∧ (∀ fuel' instances v m0,
       instances !! token = Some v →
       scopedResolve user_fn fuel' c instances token m0 = (Ret (v, instances), m0))
  ∧ (∀ k,
       createScope user_fn fuel c (CResolve token k) m =
         match resolve user_fn fuel c token m with
         | (Ret v, m1) =>
             run_callback user_fn fuel c (k (Normal v)) {[token := v]}
                          [(token, v)] m1
         | (Throw e, m1) => run_callback user_fn fuel c (k (Abrupt e)) ∅ [] m1
         | (OutOfFuel, m1) => (OutOfFuel, m1)
         end).
Proof.
  intros Hscoped. split; [|split].
  - intros callback vs seen m' Hrun v w Hv Hw.
    apply run_callback_answers in Hrun as [instances' Hcache]; [|set_solver].
    pose proof (Hcache token v Hv Hscoped). pose proof (Hcache token w Hw Hscoped).
    congruence.
  - intros fuel' instances v m0. apply scopedResolve_hit.
  - intros k. unfold createScope. simpl.
    rewrite scopedResolve_miss by apply lookup_empty.
    destruct (resolve user_fn fuel c token m) as [[v|e|] m1]; [|done..].
    by rewrite decide_True, insert_empty by done.
Qed.

(** *** Singletons *)

Lemma call_cells_length f args m :
  length (cells (call user_fn f args m).2) = length (cells m).
Proof.
  revert m. induction f as [id|cell|cell g IH] using Fn_nested_ind; intros m; simpl.
  - unfold call_user. by destruct (user_fn id args (world m)).
  - unfold bind, read_cell. simpl. by destruct (nullish _).
  - unfold bind, read_cell. simpl. destruct (nullish _); [|done].
    specialize (IH m). destruct (call user_fn g args m) as [[r|e|] m1]; [|done..].
    simpl in *. by rewrite length_insert.
Qed.

(** Once the cell of a singleton closure holds a value other than [null] and
    [undefined], the closure returns it and runs nothing. *)
Lemma singleton_cached cell fn args m v :
  cells m !! cell = Some v → nullish v = false →
  call user_fn (FSingleton cell fn) args m = (Ret v, m).
Proof.
  intros Hcell Hv. simpl. unfold bind, read_cell. rewrite Hcell. simpl.
  by rewrite Hv.
Qed.

(** A result other than [null] and [undefined] is in the cell afterwards. *)
Lemma singleton_caches_result cell g args m v m1 :
  cell < length (cells m) →
  call user_fn (FSingleton cell (Some g)) args m = (Ret v, m1) →
  nullish v = false →
  cells m1 !! cell = Some v.
Proof.
  intros Hcell Hrun Hv. simpl in Hrun. unfold bind, read_cell in Hrun.
  simpl in Hrun.
  destruct (cells m !! cell) as [old|] eqn:Hold; simpl in Hrun.
  2:{ apply lookup_ge_None in Hold. lia. }
  destruct (nullish old) eqn:Hnull.
  - pose proof (call_cells_length g args m) as Hlen.
    destruct (call user_fn g args m) as [[r|e|] m2]; [|done..].
    unfold write_cell, ret in Hrun. simplify_eq/=.
    apply list_lookup_insert_eq. lia.
  - unfold ret in Hrun. by simplify_eq.
Qed.

Lemma mapM_cells_length {A B} (g : A → M World B) l m :
  (∀ x m0, length (cells (g x m0).2) = length (cells m0)) →
  length (cells (mapM g l m).2) = length (cells m).
Proof.
  intros Hg. revert m. induction l as [|x l IH]; intros m; simpl; [done|].
  unfold bind. specialize (Hg x m).
  destruct (g x m) as [[y|e|] m1]; [|done..]. simpl in Hg.
  specialize (IH m1). destruct (mapM g l m1) as [[ys|e|] m2]; simpl in *; congruence.
Qed.

(** Running a container creates no cell. *)
Lemma resolve_cells_length fuel c token m :
  length (cells (resolve user_fn fuel c token m).2) = length (cells m).
Proof.
  revert token m. induction fuel as [|fuel IH]; intros token m; simpl; [done|].
  destruct (getState c !! token) as [state|]; [|done].
  destruct (get_prop dependencies state) as [e|[deps|]]; [done| |done].
  unfold bind.
  pose proof (mapM_cells_length (resolve user_fn fuel c) deps m IH) as Hargs.
  destruct (mapM (resolve user_fn fuel c) deps m) as [[args|e|] m1]; [|done..].
  destruct (get_prop factory state) as [e|[f|]]; try done.
  simpl in Hargs. rewrite <-Hargs. apply call_cells_length.
Qed.

(** A cell that holds a value other than [null] and [undefined] keeps it,
    whatever runs. *)
Lemma call_keeps_cell cell v f args m :
  nullish v = false → cells m !! cell = Some v →
  cells (call user_fn f args m).2 !! cell = Some v.
Proof.
  intros Hv. revert m.
  induction f as [id|cell'|cell' g IH] using Fn_nested_ind; intros m Hcell; simpl.
  - unfold call_user. by destruct (user_fn id args (world m)).
  - unfold bind, read_cell. simpl.
    by destruct (nullish (default VUndefined (cells m !! cell'))).
  - unfold bind, read_cell. simpl.
    destruct (nullish (default VUndefined (cells m !! cell'))) eqn:Hnull; [|done].
    specialize (IH m Hcell).
    destruct (call user_fn g args m) as [[r|e|] m1]; [|done..]. simpl in *.
    rewrite list_lookup_insert_ne; [done|]. intros ->.
    rewrite Hcell in Hnull. simpl in Hnull. congruence.
Qed.

Lemma mapM_keeps_cell {A B} cell v (g : A → M World B) l m :
  (∀ x m0, cells m0 !! cell = Some v → cells (g x m0).2 !! cell = Some v) →
  cells m !! cell = Some v →
  cells (mapM g l m).2 !! cell = Some v.
Proof.
  intros Hg. revert m. induction l as [|x l IH]; intros m Hcell; simpl; [done|].
  unfold bind. specialize (Hg x m Hcell).
  destruct (g x m) as [[y|e|] m1]; [|done..]. simpl in Hg.
  specialize (IH m1 Hg). by destruct (mapM g l m1) as [[ys|e|] m2].
Qed.

Lemma resolve_keeps_cell cell v fuel c token m :
  nullish v = false → cells m !! cell = Some v →
  cells (resolve user_fn fuel c token m).2 !! cell = Some v.
Proof.
  intros Hv. revert token m.
  induction fuel as [|fuel IH]; intros token m Hcell; simpl; [done|].
  destruct (getState c !! token) as [state|]; [|done].
  destruct (get_prop dependencies state) as [e|[deps|]]; [done| |done].
  unfold bind.
  pose proof (mapM_keeps_cell cell v (resolve user_fn fuel c) deps m IH Hcell) as Hargs.
  destruct (mapM (resolve user_fn fuel c) deps m) as [[args|e|] m1]; [|done..].
  destruct (get_prop factory state) as [e|[f|]]; try done.
  by apply call_keeps_cell.
Qed.

(** What holds of the singleton scope: once a [resolve] of a singleton token
    has returned a value other than [null] and [undefined], every later
    [resolve] of the token on that container resolves the dependencies again
    and, if that returns, returns the same value without calling anything
    more. *)
Lemma singleton_resolved_again fuel c token o deps g cell m v m1 :
  getState c !! token = Some (VObj o) →
  dependencies o = Some deps →
  factory o = Some (FSingleton cell (Some g)) →
  cell < length (cells m) →
  resolve user_fn (S fuel) c token m = (Ret v, m1) →
  nullish v = false →
  cells m1 !! cell = Some v
  ∧ ∀ fuel' m2,
      cells m2 !! cell = Some v →
      resolve user_fn (S fuel') c token m2 =
        match mapM (resolve user_fn fuel' c) deps m2 with
        | (Ret args, m3) => (Ret v, m3)
        | (Throw e, m3) => (Throw e, m3)
        | (OutOfFuel, m3) => (OutOfFuel, m3)
        end.
Proof.
  intros Hlook Hdeps Hf Hcell Hrun Hv. split.
  - rewrite (resolve_factory _ _ _ o deps (FSingleton cell (Some g))) in Hrun by done.
    unfold bind in Hrun.
    destruct (mapM (resolve user_fn fuel c) deps m) as [[args|e|] m0] eqn:Hargs;
      [|done..].
    eapply singleton_caches_result; [|done..].
    pose proof (mapM_cells_length (resolve user_fn fuel c) deps m
                  (resolve_cells_length fuel c)) as Hlen.
    rewrite Hargs in Hlen. simpl in Hlen. by rewrite Hlen.
  - intros fuel' m2 Hcell2.
    rewrite (resolve_factory _ _ _ o deps (FSingleton cell (Some g))) by done.
    unfold bind.
    pose proof (mapM_keeps_cell cell v (resolve user_fn fuel' c) deps m2
                  (λ x m0, resolve_keeps_cell cell v fuel' c x m0 Hv) Hcell2) as Hkeep.
    destruct (mapM (resolve user_fn fuel' c) deps m2) as [[args|e|] m3]; [|done..].
    by apply singleton_cached.
Qed.

(** *** [replaceFactory] and a malformed descriptor *)

Lemma replaceFactory_non_object b token v sc m :
  typeof_object v = false →
  replaceFactory b token v sc m = (Throw (MalformedFactoryError v), m).
Proof. intros Hv. unfold replaceFactory. by rewrite Hv. Qed.

(** C8: what [replaceFactory] does with the descriptor [null].  With the
    scope "transient" or "scoped" it throws nothing and installs an object
    that has only the [scope] property; with the scope "singleton" it fails
    with a TypeError of the language.  [registerFactory] rejects the same
    descriptor with MalformedFactoryError. *)
Theorem replaceFactory_null_descriptor b token m :
  replaceFactory b token VNull Transient m =
    (Ret (buildStrictDIContainer
            (<[token := VObj (mkObject None None (Some Transient))]>
               (containerState b))), m)
  ∧ replaceFactory b token VNull Scoped m =
      (Ret (buildStrictDIContainer
              (<[token := VObj (mkObject None None (Some Scoped))]>
                 (containerState b))), m)
  ∧ replaceFactory b token VNull Singleton m = (Throw TypeError, m)
  ∧ ∀ sc, registerFactory b token VNull sc m
          = (Throw (MalformedFactoryError VNull), m).
Proof. done. Qed.

(** *** The closures of a reachable state refer to existing cells *)

Lemma fn_cells_below_mono n n' f :
  n ≤ n' → fn_cells_below n f = true → fn_cells_below n' f = true.
Proof.
  intros Hle. induction f as [id|cell|cell g IH] using Fn_nested_ind; simpl; [done|..].
  - rewrite !andb_true_r, !bool_decide_eq_true. lia.
  - rewrite !andb_true_iff, !bool_decide_eq_true. intros [? ?]. split; [lia|auto].
Qed.

Lemma value_cells_below_mono n n' v :
  n ≤ n' → value_cells_below n v = true → value_cells_below n' v = true.
Proof.
  intros Hle. destruct v as [| | | | | | |[deps [f|] sc]]; simpl; try done.
  by apply fn_cells_below_mono.
Qed.

Lemma state_cells_below_mono n n' st :
  n ≤ n' → state_cells_below n st → state_cells_below n' st.
Proof.
  intros Hle Hst. eapply map_Forall_impl; [done|].
  intros t v. by apply value_cells_below_mono.
Qed.

Lemma stored_registration_cells n o sc :
  value_cells_below n (VObj o) = true →
  value_cells_below (match sc with Singleton => S n | _ => n end)
                    (VObj (stored_registration n o sc)) = true.
Proof.
  destruct o as [deps [f|] s], sc; simpl; try done.
  - intros Hf. rewrite andb_true_iff, bool_decide_eq_true. split; [lia|].
    apply (fn_cells_below_mono n); [lia|done].
  - intros _. rewrite andb_true_r, bool_decide_eq_true. lia.
Qed.

Lemma replaceFactory_cells b token v sc m b' m' :
  state_cells_below (length (cells m)) (containerState b) →
  value_cells_below (length (cells m)) v = true →
  replaceFactory b token v sc m = (Ret b', m') →
  state_cells_below (length (cells m')) (containerState b').
Proof.
  intros Hst Hv.
  destruct v as [| | | | | |l|o]; try done.
  - (* null *)
    destruct sc; [|done|]; intros Hrun; unfold replaceFactory in Hrun;
      simpl in Hrun; unfold bind, ret in Hrun; simplify_eq/=;
      by apply map_Forall_insert_2.
  - (* an application object *)
    destruct sc; intros Hrun; unfold replaceFactory in Hrun; simpl in Hrun;
      unfold bind, ret, defineSingleton, alloc_cell in Hrun; simplify_eq/=;
      try by apply map_Forall_insert_2.
    rewrite length_app. simpl. apply map_Forall_insert_2.
    + simpl. rewrite andb_true_r, bool_decide_eq_true. lia.
    + eapply state_cells_below_mono; [|done]. lia.
  - rewrite replaceFactory_object. intros; simplify_eq/=.
    pose proof (stored_registration_cells (length (cells m)) o sc Hv) as Hreg.
    destruct sc; simpl in *; try by apply map_Forall_insert_2.
    unfold grow. simpl. rewrite length_app. simpl.
    replace (length (cells m) + 1) with (S (length (cells m))) by lia.
    apply map_Forall_insert_2; [done|].
    eapply state_cells_below_mono; [|done]. lia.
Qed.

(** The hypothesis of C7 is an invariant of the builder chain. *)
Lemma apply_operation_cells op b m b' m' :
  state_cells_below (length (cells m)) (containerState b) →
  operation_cells_below (length (cells m)) op →
  apply_operation immer_finalize op b m = (Ret b', m') →
  state_cells_below (length (cells m')) (containerState b').
Proof.
  intros Hst Hop. destruct op as [t v|t v|t v sc|t v sc|values|st2]; simpl in *.
  - intros (_ & [Hcs _]%finalize_cells & ->)%register_returns.
    rewrite Hcs. by apply map_Forall_insert_2.
  - intros ([Hcs _]%finalize_cells & ->)%replace_returns.
    rewrite Hcs. by apply map_Forall_insert_2.
  - intros Hrun. unfold registerFactory in Hrun.
    destruct (negb (typeof_object v) || negb (truthy v)); [done|].
    destruct (token_in t (containerState b)); [done|].
    destruct (get_prop dependencies v) as [e|[deps|]]; [done| |done].
    unfold bind in Hrun.
    destruct (check_dependencies (containerState b) deps m) as [[[]|e|] m1] eqn:Hchk;
      [|done..].
    apply check_dependencies_machine in Hchk as ->.
    by eapply replaceFactory_cells.
  - by apply replaceFactory_cells.
  - unfold replaceFactoryArray, ret. intros; simplify_eq/=.
    revert Hst. generalize (containerState b).
    induction Hop as [|d values Hd _ IH]; intros st Hst; simpl; [done|].
    apply IH. by apply map_Forall_insert_2.
  - unfold merge, ret. intros; simplify_eq/=. by apply map_Forall_union_2.
Qed.

(** *** Resolution terminates on a state without cycles *)

Lemma call_returns_or_throws f args m : (call user_fn f args m).1 ≠ OutOfFuel.
Proof.
  revert m. induction f as [id|cell|cell g IH] using Fn_nested_ind; intros m; simpl.
  - unfold call_user. by destruct (user_fn id args (world m)) as [[v|e] w].
  - unfold bind, read_cell. simpl. by destruct (nullish _).
  - unfold bind, read_cell. simpl. destruct (nullish _); [|done].
    specialize (IH m). by destruct (call user_fn g args m) as [[r|e|] m1].
Qed.

Lemma mapM_returns_or_throws {A B} (g : A → M World B) l m :
  (∀ x m0, x ∈ l → (g x m0).1 ≠ OutOfFuel) → (mapM g l m).1 ≠ OutOfFuel.
Proof.
  revert m. induction l as [|x l IH]; intros m Hg; simpl; [done|].
  unfold bind. pose proof (Hg x m (list_elem_of_here _ _)) as Hx.
  destruct (g x m) as [[y|e|] m1]; [|done..].
  assert ((mapM g l m1).1 ≠ OutOfFuel) as Hl.
  { apply IH. intros x' m0 Hin. apply Hg. by apply list_elem_of_further. }
  by destruct (mapM g l m1) as [[ys|e|] m2].
Qed.

Lemma resolve_terminates rank fuel c token m :
  ranked rank (getState c) → rank token < fuel →
  (resolve user_fn fuel c token m).1 ≠ OutOfFuel.
Proof.
  intros Hrank. revert token m.
  induction fuel as [|fuel IH]; intros token m Hfuel; [lia|]. simpl.
  destruct (getState c !! token) as [state|] eqn:Hlook; [|done].
  destruct (get_prop dependencies state) as [e|[deps|]] eqn:Hdeps; [done| |done].
  unfold bind.
  assert ((mapM (resolve user_fn fuel c) deps m).1 ≠ OutOfFuel) as Hargs.
  { apply mapM_returns_or_throws. intros d m0 Hd. apply IH.
    destruct state; simplify_eq/=.
    pose proof (Hrank token _ deps d Hlook Hdeps Hd). lia. }
  destruct (mapM (resolve user_fn fuel c) deps m) as [[args|e|] m1]; [|done..].
  destruct (get_prop factory state) as [e|[f|]]; try done.
  apply call_returns_or_throws.
Qed.

End Properties.

(** ** The properties on the small application *)

(** C1: [resolve] of a token that maps to the value [null] (registered with
    [register]) does not return the value: reading its [dependencies]
    property fails with a TypeError.  [undefined] behaves alike. *)
Theorem resolve_of_null_registration :
  (let* b := register App.immer_finalize App.empty "Config" VNull in
   resolve App.fn 3 (getResult b) "Config") App.start
  = (Throw TypeError, App.start)
  ∧ (let* b := register App.immer_finalize App.empty "Config" VUndefined in
     resolve App.fn 3 (getResult b) "Config") App.start
    = (Throw TypeError, App.start).
Proof. split; vm_compute; reflexivity. Qed.


(** C3 as stated fails: a registered value that has a [dependencies]
    property is taken for a factory descriptor, and [resolve] returns what
    its [factory] returns instead of the value.  And [register] of a plain
    object in a cycle does not succeed: immer's walk below it does not
    end. *)
Lemma register_descriptor_shaped_value :
  (let* b := register App.immer_finalize App.empty "Plugin" (App.descriptor [] 0) in
   resolve App.fn 3 (getResult b) "Plugin") App.start
  = (Ret (VRef 0), mkMachine 1 [] [(0, [])])
  ∧ VRef 0 ≠ App.descriptor [] 0
  ∧ register Plain.immer_finalize App.empty "First" (VRef 9) Plain.start
    = (OutOfFuel, Plain.start).
Proof. split; [vm_compute; reflexivity|split; [discriminate|reflexivity]]. Qed.

Lemma register_then_resolve_witness :
  (let* b := register Plain.immer_finalize Plain.with_counter "Settings" (VRef 7) in
   resolve Plain.fn 1 (getResult b) "Settings") Plain.start
  = (Ret (VRef 7), mkMachine (Plain.mkSettings 0 true) [] []).
Proof.
  apply (proj1 (register_then_resolve Plain.fn Plain.immer_finalize
                  Plain.with_counter "Settings" (VRef 7) 0 Plain.start
                  (Ret tt) (mkMachine (Plain.mkSettings 0 true) [] [])
                  eq_refl eq_refl eq_refl)).
  reflexivity.
Defined.

(** C4: a singleton factory whose first result is [null] is run again by the
    next [resolve] (two calls in the history), and the two [resolve] calls
    return different results: the closure of [defineSingleton] keeps a result
    only when it is neither [null] nor [undefined]. *)
Theorem singleton_factory_returning_null_runs_again :
  (let* b := registerFactory App.empty "Cache" (App.descriptor [] 2) Singleton in
   let* first := resolve App.fn 3 (getResult b) "Cache" in
   let* second := resolve App.fn 3 (getResult b) "Cache" in
   ret (first, second)) App.start
  = (Ret (VNull, VRef 1), mkMachine 2 [VRef 1] [(2, []); (2, [])]).
Proof. vm_compute; reflexivity. Qed.

(** C5 as stated fails: a scoped factory that returns one shared object
    gives the same instance in two separate scopes, though it runs once in
    each. *)
Lemma scoped_shared_instance_across_scopes :
  (let* b := registerFactory App.empty "Shared" (App.descriptor [] 1) Scoped in
   let* first := createScope App.fn 3 (getResult b) (App.ask ["Shared"] []) in
   let* second := createScope App.fn 3 (getResult b) (App.ask ["Shared"] []) in
   ret (first.1, second.1)) App.start
  = (Ret ([VRef 1000], [VRef 1000]), mkMachine 0 [] [(1, []); (1, [])]).
Proof. vm_compute; reflexivity. Qed.

Lemma scoped_instances_per_scope_witness :
  (∀ callback vs seen m',
     createScope App.fn 3 App.with_scoped callback App.start = (Ret (vs, seen), m') →
     ∀ v w, ("Session", v) ∈ seen → ("Session", w) ∈ seen → v = w)
  ∧ (∀ fuel' (instances : gmap string value) v m0,
       instances !! "Session" = Some v →
       scopedResolve App.fn fuel' App.with_scoped instances "Session" m0
       = (Ret (v, instances), m0))
  ∧ (∀ k,
       createScope App.fn 3 App.with_scoped (CResolve "Session" k) App.start =
         match resolve App.fn 3 App.with_scoped "Session" App.start with
         | (Ret v, m1) =>
             run_callback App.fn 3 App.with_scoped (k (Normal v))
                          {[ "Session" := v ]} [("Session", v)] m1
         | (Throw e, m1) =>
             run_callback App.fn 3 App.with_scoped (k (Abrupt e)) ∅ [] m1
         | (OutOfFuel, m1) => (OutOfFuel, m1)
         end).
Proof.
  apply (scoped_instances_per_scope App.fn 3 App.with_scoped "Session" App.start).
  reflexivity.
Defined.

(** The scopes of C5 at work: one instance within a scope, another one in
    the next scope, a third one for the ordinary [resolve]. *)
Example scoped_instances_run :
  (let* first := createScope App.fn 3 App.with_scoped
                   (App.ask ["Session"; "Session"] []) in
   let* second := createScope App.fn 3 App.with_scoped (App.ask ["Session"] []) in
   let* plain := resolve App.fn 3 App.with_scoped "Session" in
   ret (first.1, second.1, plain)) App.start
  = (Ret ([VRef 0; VRef 0], [VRef 1], VRef 2),
     mkMachine 3 [] [(0, []); (0, []); (0, [])]).
Proof. vm_compute; reflexivity. Qed.

Lemma strict_registration_all_or_nothing_witness :
  (∀ e m',
     register App.immer_finalize App.with_repoA "RepoA" (VRef 9) App.start = (Throw e, m')
     ∨ registerFactory App.with_repoA "RepoA" (VRef 9) Transient App.start
       = (Throw e, m') →
     m' = App.start
     ∧ ∀ fuel t, resolve App.fn fuel (getResult App.with_repoA) t m'
                 = resolve App.fn fuel (getResult App.with_repoA) t App.start)
  ∧ register App.immer_finalize App.with_repoA "RepoA" (VRef 9) App.start
    = (Throw (DuplicateTokenError "RepoA"), App.start)
  ∧ (∀ b' m',
       register App.immer_finalize App.with_repoA "RepoB" (VRef 9) App.start = (Ret b', m')
       ∨ registerFactory App.with_repoA "RepoB" (VRef 9) Transient App.start
         = (Ret b', m') →
       containerState App.with_repoA !! "RepoB" = None
       ∧ dom (containerState b') = {[ "RepoB" ]} ∪ dom (containerState App.with_repoA)
       ∧ size (containerState b') = S (size (containerState App.with_repoA))
       ∧ ∀ t, t ≠ "RepoB" →
              containerState b' !! t = containerState App.with_repoA !! t)
  ∧ register App.immer_finalize App.with_repoA "RepoB" (VRef 9) App.start
    = (Ret (buildStrictDIContainer {[ "RepoA" := VRef 7; "RepoB" := VRef 9 ]}),
       App.start).
Proof.
  split; [|split; [|split]].
  - apply (proj1 (strict_registration_all_or_nothing
                    App.fn App.immer_finalize App.with_repoA "RepoA" (VRef 9) Transient App.start)).
  - vm_compute; reflexivity.
  - apply (proj2 (strict_registration_all_or_nothing
                    App.fn App.immer_finalize App.with_repoA "RepoB" (VRef 9) Transient App.start)).
  - vm_compute; reflexivity.
Defined.

(** C7 as stated fails: [register] of the plain object [settings] lets
    immer freeze the object [limits] below it, and the factory of a container
    obtained from the receiver before, which counts in [limits], throws from
    then on.  Before the operation the container resolves the token to [1];
    after it, [resolve] throws a [TypeError]. *)
Lemma register_freezes_what_a_container_uses :
  resolve Plain.fn 1 (getResult Plain.with_counter) "Counter" Plain.start
  = (Ret (VNum 1), mkMachine (Plain.mkSettings 1 false) [] [(0, [])])
  ∧ (let* b' := register Plain.immer_finalize Plain.with_counter
                  "Settings" (VRef 7) in
     resolve Plain.fn 1 (getResult Plain.with_counter) "Counter") Plain.start
    = (Throw TypeError, mkMachine (Plain.mkSettings 0 true) [] [(0, [])]).
Proof. split; vm_compute; reflexivity. Qed.

Lemma operations_do_not_disturb_containers_witness :
  calls (mkMachine 0 [VUndefined; VUndefined] []) = calls App.one_cell
  ∧ (∀ b',
       Ret (buildStrictDIContainer
              (<["Other" :=
                   VObj (stored_registration 1
                           (mkObject (Some ["Service"]) (Some (FUser 0)) None)
                           Singleton)]>
                 (containerState App.with_singleton))) = Ret b' →
       operation_registers
         (OpRegisterFactory "Other" (App.descriptor ["Service"] 0) Singleton)
         (containerState b')
       ∧ ∀ t, t ∉ ["Other"] →
              containerState b' !! t = containerState App.with_singleton !! t)
  ∧ (∀ stateToMerge,
       OpRegisterFactory "Other" (App.descriptor ["Service"] 0) Singleton
       = OpMerge stateToMerge →
       mkMachine 0 [VUndefined; VUndefined] [] = App.one_cell)
  ∧ ∃ ext,
      undisturbed App.fn (getResult App.with_singleton) ext
        (with_world 0 App.one_cell) (mkMachine 0 [VUndefined; VUndefined] [])
      ∧ (world (mkMachine 0 [VUndefined; VUndefined] []) = world App.one_cell →
         undisturbed App.fn (getResult App.with_singleton) ext
           App.one_cell (mkMachine 0 [VUndefined; VUndefined] [])).
Proof.
  apply (operations_do_not_disturb_containers App.fn App.immer_finalize
           (OpRegisterFactory "Other" (App.descriptor ["Service"] 0) Singleton)
           App.with_singleton App.one_cell
           (Ret (buildStrictDIContainer
                   (<["Other" :=
                        VObj (stored_registration 1
                                (mkObject (Some ["Service"]) (Some (FUser 0)) None)
                                Singleton)]>
                      (containerState App.with_singleton))))
           (mkMachine 0 [VUndefined; VUndefined] [])).
  - apply map_Forall_singleton. reflexivity.
  - vm_compute; reflexivity.
Defined.

(** The receiver's container of C7 at work: the singleton registered before
    the operation is constructed in its own cell, as if the operation had not
    taken place. *)
Example container_after_operation_run :
  (let* b' := registerFactory App.with_singleton "Other"
                (App.descriptor ["Service"] 0) Singleton in
   let* first := resolve App.fn 3 (getResult App.with_singleton) "Service" in
   let* second := resolve App.fn 3 (getResult App.with_singleton) "Service" in
   ret (first, second)) App.one_cell
  = (Ret (VRef 0, VRef 0), mkMachine 1 [VRef 0; VUndefined] [(0, [])]).
Proof. vm_compute; reflexivity. Qed.



Lemma scoped_cache_only_for_requested_token_witness :
  (∀ instances2 : gmap string value,
     instances2 !! "Handler" = ({[ "Session" := VRef 0 ]} : gmap string value) !! "Handler" →
     map_outcome fst (scopedResolve App.fn 3 App.with_scoped instances2 "Handler"
                        (mkMachine 1 [] [(0, [])])).1
     = Ret (VRef 1)
     ∧ (scopedResolve App.fn 3 App.with_scoped instances2 "Handler"
          (mkMachine 1 [] [(0, [])])).2
       = mkMachine 2 [] [(0, []); (0, []); (3, [VRef 1])])
  ∧ (∀ v instances' m',
       scopedResolve App.fn 3 App.with_scoped {[ "Session" := VRef 0 ]} "Handler"
                     (mkMachine 1 [] [(0, [])]) = (Ret (v, instances'), m') →
       ∀ dep, dep ≠ "Handler" →
              instances' !! dep
              = ({[ "Session" := VRef 0 ]} : gmap string value) !! dep)
  ∧ scopedResolve App.fn 3 App.with_scoped {[ "Session" := VRef 0 ]} "Handler"
                  (mkMachine 1 [] [(0, [])])
    = match (let* args := mapM (resolve App.fn 2 App.with_scoped) ["Session"] in
             call App.fn (FUser 3) args) (mkMachine 1 [] [(0, [])]) with
      | (Ret v, m') =>
          (Ret (v, if decide (Some Transient = Some Scoped)
                   then <["Handler" := v]> {[ "Session" := VRef 0 ]}
                   else {[ "Session" := VRef 0 ]}), m')
      | (Throw e, m') => (Throw e, m')
      | (OutOfFuel, m') => (OutOfFuel, m')
      end.
Proof.
  destruct (scoped_cache_only_for_requested_token App.fn 3 App.with_scoped
              {[ "Session" := VRef 0 ]} "Handler" (mkMachine 1 [] [(0, [])]))
    as (Hread & Hwrite & Hdeps).
  split; [|split].
  - exact Hread.
  - exact Hwrite.
  - exact (Hdeps 2 (mkObject (Some ["Session"]) (Some (FUser 3)) (Some Transient))
                 ["Session"] (FUser 3) eq_refl eq_refl eq_refl eq_refl eq_refl).
Defined.

(** The resolver of C10 at work: the scope holds the instance [VRef 0] of
    "Session"; resolving "Handler", which depends on "Session", constructs
    another instance [VRef 1] for it and leaves the cache as it was. *)
Example scoped_dependency_run :
  scopedResolve App.fn 3 App.with_scoped {[ "Session" := VRef 0 ]} "Handler"
                (mkMachine 1 [] [(0, [])])
  = (Ret (VRef 1, {[ "Session" := VRef 0 ]}),
     mkMachine 2 [] [(0, []); (0, []); (3, [VRef 1])]).
Proof. vm_compute; reflexivity. Qed.

(** ** Further properties of the builder and of the container *)

Section MoreProperties.

Context {World : Type} (user_fn : nat → list value → World → Completion * World)
        (immer_finalize :
           gmap string value → DIToken → value → World → bool * World).

Implicit Types (m : Machine World) (st : gmap string value) (v : value)
  (b : StrictDIContainerBuilder) (c : DIContainer) (f : Fn).

(** *** [merge] *)

(** X1: [merge] never throws and runs nothing; in the merged state a token
    has the registration of [stateToMerge] when that state has the token, and
    the receiver's registration otherwise; the tokens are those of both. *)
Theorem merge_second_wins b (stateToMerge : gmap string value) m :
  ∃ b',
    merge b stateToMerge m = (Ret b', m)
    ∧ (∀ t, containerState b' !! t =
              match stateToMerge !! t with
              | Some v => Some v
              | None => containerState b !! t
              end)
    ∧ dom (containerState b') = dom (containerState b) ∪ dom stateToMerge.
Proof.
  eexists. split; [done|]. simpl. split.
  - intros t. rewrite lookup_union.
    by destruct (stateToMerge !! t), (containerState b !! t).
  - rewrite dom_union_L. apply (comm_L (∪)).
Qed.

(** X2: two merges in a row are one merge of the two states, the later one
    first; merging the empty state, or the receiver's own state, changes
    nothing; and the state of a container, merged into the empty builder,
    gives the container back. *)
Theorem merge_composes b (s1 s2 : gmap string value) c m :
  (let* b1 := merge b s1 in merge b1 s2) m = merge b (s2 ∪ s1) m
  ∧ merge b ∅ m = (Ret b, m)
  ∧ merge b (containerState b) m = (Ret b, m)
  ∧ (let* b' := merge (buildStrictDIContainer ∅) (getState c) in
     ret (getResult b')) m = (Ret c, m).
Proof.
  destruct b as [st], c as [stc]. unfold merge, bind, ret, getResult. simpl.
  split; [|split; [|split]].
  - by rewrite (assoc_L (∪)).
  - by rewrite (left_id_L ∅ (∪)).
  - by rewrite (idemp_L (∪)).
  - by rewrite (right_id_L ∅ (∪)).
Qed.

(** *** [replace] *)

(** X3: [replace] has no check of its own, whether or not the token is
    registered.  When immer's walk ends, [replace] returns on the machine
    that the walk leaves: the builder maps the token to the value and keeps
    every other registration; of two [replace] of one token that return the
    later one counts; a [register] of the token is rejected afterwards; and
    [resolve] returns the value, if it is not [null], [undefined] or an
    object with a [dependencies] property.  When the walk does not end (a
    plain object below the value is in a cycle), [replace] returns no
    builder: the recursion is unbounded. *)
Theorem replace_overwrites b token v m r m1 :
  finalize immer_finalize (containerState b) token v m = (r, m1) →
  (r ≠ Ret tt → replace immer_finalize b token v m = (OutOfFuel, m1))
  ∧ (r = Ret tt →
     ∃ b',
       replace immer_finalize b token v m = (Ret b', m1)
       ∧ containerState b' !! token = Some v
       ∧ (∀ t, t ≠ token → containerState b' !! t = containerState b !! t)
       ∧ (∀ v0 m0 b0 m2 b2 m3,
            replace immer_finalize b token v0 m0 = (Ret b0, m2) →
            replace immer_finalize b0 token v m2 = (Ret b2, m3) →
            b2 = b')
       ∧ (∀ v2 m2, register immer_finalize b' token v2 m2
                   = (Throw (DuplicateTokenError token), m2))
       ∧ (get_prop dependencies v = inr None →
          ∀ fuel m2,
            resolve user_fn (S fuel) (getResult b') token m2 = (Ret v, m2))).
Proof.
  intros Hwalk. split.
  - intros Hr. rewrite replace_run, Hwalk.
    apply finalize_machine in Hwalk as [[->| ->] _]; done.
  - intros ->.
    exists (buildStrictDIContainer (<[token := v]> (containerState b))).
    split; [by apply replace_ended|]. split; [apply lookup_insert_eq|].
    split; [by intros t Ht; apply lookup_insert_ne|].
    split; [|split].
    + intros v0 m0 b0 m2 b2 m3 (_ & ->)%replace_returns (_ & ->)%replace_returns.
      simpl. by rewrite insert_insert_eq.
    + intros v2 m2. unfold register, token_in. simpl. by rewrite lookup_insert_eq.
    + intros Hplain fuel m2. apply resolve_value; [|done]. apply lookup_insert_eq.
Qed.

(** *** No operation removes a token *)

Lemma replaceFactory_returns b token v sc m b' m' :
  replaceFactory b token v sc m = (Ret b', m') →
  ∃ reg, containerState b' = <[token := VObj reg]> (containerState b).
Proof.
  unfold replaceFactory. destruct (negb (typeof_object v)); [done|].
  destruct sc; unfold bind, ret; simpl.
  - intros; simplify_eq/=. eauto.
  - destruct (get_prop factory v) as [e|fn]; [done|].
    unfold defineSingleton, bind, alloc_cell, ret. simpl.
    intros; simplify_eq/=. eauto.
  - intros; simplify_eq/=. eauto.
Qed.

(** X4: every token registered before a successful builder operation is
    registered after it, and so are the tokens the operation is about. *)
Theorem operations_never_remove_tokens op b m b' m' :
  apply_operation immer_finalize op b m = (Ret b', m') →
  dom (containerState b) ⊆ dom (containerState b')
  ∧ ∀ t, t ∈ operation_tokens op → t ∈ dom (containerState b').
Proof.
  destruct op as [t0 v|t0 v|t0 v sc|t0 v sc|values|st2]; simpl.
  - intros (_ & _ & ->)%register_returns. simpl. rewrite dom_insert_L.
    split; [set_solver|]. intros t ->%list_elem_of_singleton. set_solver.
  - intros (_ & ->)%replace_returns. simpl. rewrite dom_insert_L.
    split; [set_solver|]. intros t ->%list_elem_of_singleton. set_solver.
  - intros (o & _ & _ & -> & _)%registerFactory_returns. rewrite dom_insert_L.
    split; [set_solver|]. intros t ->%list_elem_of_singleton. set_solver.
  - intros (reg & ->)%replaceFactory_returns. rewrite dom_insert_L.
    split; [set_solver|]. intros t ->%list_elem_of_singleton. set_solver.
  - unfold replaceFactoryArray, ret. intros; simplify_eq/=. split.
    + intros t Ht. apply replaceFactoryArray_dom. by left.
    + intros t (d & -> & Hd)%list_elem_of_fmap. apply replaceFactoryArray_dom.
      right. by exists d.
  - unfold merge, ret. intros; simplify_eq/=. rewrite dom_union_L.
    split; [set_solver|]. intros t Ht%elem_of_elements. set_solver.
Qed.

(** *** [replaceFactoryArray] *)


(** *** Factories and their dependencies *)

Lemma mapM_resolve_values fuel c deps vs m :
  registered_values (getState c) deps vs →
  mapM (resolve user_fn (S fuel) c) deps m = (Ret vs, m).
Proof.
  intros Hvs. induction Hvs as [|d v deps vs [Hd Hv] _ IH]; [done|].
  cbn [mapM]. unfold bind. rewrite (resolve_value _ _ _ _ v) by done.
  by rewrite IH.
Qed.






(** X8: the instance of a singleton is shared by the containers of the
    builders derived from the receiver: after a [resolve] of the token has
    returned a value other than [null] and [undefined], a builder operation
    that keeps the token's registration gives a builder whose container
    returns that same value for the token, once the dependencies are
    resolved, and does not call the factory. *)
Theorem singleton_shared_by_derived_builders
    c token o deps g cell fuel m v m1 op b' m2 :
  getState c !! token = Some (VObj o) →
  dependencies o = Some deps →
  factory o = Some (FSingleton cell (Some g)) →
  cell < length (cells m) →
  resolve user_fn (S fuel) c token m = (Ret v, m1) →
  nullish v = false →
  apply_operation immer_finalize op (buildStrictDIContainer (getState c)) m1
  = (Ret b', m2) →
  containerState b' !! token = Some (VObj o) →
  ∀ fuel',
    resolve user_fn (S fuel') (getResult b') token m2 =
      match mapM (resolve user_fn fuel' (getResult b')) deps m2 with
      | (Ret args, m3) => (Ret v, m3)
      | (Throw e, m3) => (Throw e, m3)
      | (OutOfFuel, m3) => (OutOfFuel, m3)
      end.
Proof.
  intros Hlook Hdeps Hf Hcell Hrun Hv Hop Hkept fuel'.
  destruct (singleton_resolved_again user_fn fuel c token o deps g cell m v m1)
    as [Hcached _]; [done..|].
  assert (cells m2 !! cell = Some v) as Hcell2.
  { apply apply_operation_machine in Hop as [->|[-> _]]; simpl; [done|].
    apply lookup_app_l_Some, Hcached. }
  rewrite (resolve_factory _ _ _ _ o deps (FSingleton cell (Some g))) by done.
  unfold bind.
  pose proof (mapM_keeps_cell cell v
                (resolve user_fn fuel' (getResult b')) deps m2
                (λ x m0, resolve_keeps_cell user_fn cell v fuel' (getResult b') x m0 Hv)
                Hcell2) as Hkeep.
  destruct (mapM (resolve user_fn fuel' (getResult b')) deps m2)
    as [[args|e|] m3]; [|done..].
  by apply singleton_cached.
Qed.

Lemma mapM_throws_after {A B} (g : A → M World B) pre x post ys e m m1 m2 :
  mapM g pre m = (Ret ys, m1) →
  g x m1 = (Throw e, m2) →
  mapM g (pre ++ x :: post) m = (Throw e, m2).
Proof.
  revert ys m. induction pre as [|p pre IH]; intros ys m Hpre Hx; simpl.
  - simpl in Hpre. unfold ret in Hpre. simplify_eq. unfold bind. by rewrite Hx.
  - simpl in Hpre. unfold bind in *.
    destruct (g p m) as [[y|e'|] m0] eqn:Hp; [|done..].
    destruct (mapM g pre m0) as [[ys'|e'|] m3] eqn:Hrest; [|done..].
    unfold ret in Hpre. simplify_eq. by rewrite (IH ys' m0).
Qed.

(** X9: a factory one of whose dependencies is not registered (it was
    installed without validation): when the dependencies before the missing
    one are registered values, [resolve] of the factory's token throws
    UnregisteredTokenError naming the missing dependency, and the factory is
    not called. *)
Theorem resolve_names_missing_dependency c token o pre dep post vs fuel m :
  getState c !! token = Some (VObj o) →
  dependencies o = Some (pre ++ dep :: post) →
  registered_values (getState c) pre vs →
  getState c !! dep = None →
  resolve user_fn (S (S fuel)) c token m = (Throw (UnregisteredTokenError dep), m).
Proof.
  intros Hlook Hdeps Hvs Hmissing.
  change (resolve user_fn (S (S fuel)) c token m) with
    (match getState c !! token with
     | None => throw (UnregisteredTokenError token)
     | Some state =>
         match get_prop dependencies state with
         | inl e => throw e
         | inr None => ret state
         | inr (Some deps) =>
             let* args := mapM (resolve user_fn (S fuel) c) deps in
             match get_prop factory state with
             | inr (Some f) => call user_fn f args
             | _ => throw TypeError
             end
         end
     end m).
  rewrite Hlook. cbn [get_prop]. rewrite Hdeps. unfold bind.
  rewrite (mapM_throws_after _ pre dep post vs (UnregisteredTokenError dep) m m m);
    [done|by apply mapM_resolve_values|by apply resolve_unregistered].
Qed.

(** *** Dependency cycles *)

Lemma mapM_never_returns {A B} (g : A → M World B) l d :
  d ∈ l → (∀ m0, is_ret (g d m0).1 = false) →
  ∀ m, is_ret (mapM g l m).1 = false.
Proof.
  intros Hd Hg. induction l as [|x l IH]; intros m; [by apply elem_of_nil in Hd|].
  simpl. unfold bind. apply elem_of_cons in Hd as [<-|Hd].
  - specialize (Hg m). by destruct (g d m) as [[y|e|] m1].
  - destruct (g x m) as [[y|e|] m1]; [|done..].
    specialize (IH Hd m1). by destruct (mapM g l m1) as [[ys|e|] m2].
Qed.

(** X10: no cycle detection.  In a set of factory registrations each of
    which depends on a token of the set (a dependency cycle, of any length),
    [resolve] of a token of the set never returns a value, however deep the
    recursion may go: it recurses until the stack is exhausted, unless a
    dependency resolved on the way throws. *)
Theorem dependency_cycle_never_resolves c (cyclic : DIToken → Prop) fuel token m :
  (∀ t, cyclic t →
        ∃ o deps d, getState c !! t = Some (VObj o)
                    ∧ dependencies o = Some deps ∧ d ∈ deps ∧ cyclic d) →
  cyclic token →
  is_ret (resolve user_fn fuel c token m).1 = false.
Proof.
  intros Hcycle. revert token m.
  induction fuel as [|fuel IH]; intros token m Htoken; [done|].
  destruct (Hcycle token Htoken) as (o & deps & d & Hlook & Hdeps & Hd & Hcyc).
  simpl. rewrite Hlook. simpl. rewrite Hdeps. unfold bind.
  pose proof (mapM_never_returns (resolve user_fn fuel c) deps d Hd
                (λ m0, IH d m0 Hcyc) m) as Hargs.
  by destruct (mapM (resolve user_fn fuel c) deps m) as [[args|e|] m1].
Qed.

(** X11: on a state without dependency cycles (every factory registration
    ranks above its dependencies), [resolve] of a token returns or throws
    once the recursion may go deeper than the rank of the token, and a
    deeper recursion gives the same result and the same effects. *)
Theorem acyclic_state_resolves rank fuel c token m :
  ranked rank (getState c) →
  rank token < fuel →
  is_out_of_fuel (resolve user_fn fuel c token m).1 = false
  ∧ ∀ fuel', fuel ≤ fuel' →
             resolve user_fn fuel' c token m = resolve user_fn fuel c token m.
Proof.
  intros Hrank Hfuel.
  pose proof (resolve_terminates user_fn rank fuel c token m Hrank Hfuel) as Hterm.
  split.
  - by destruct (resolve user_fn fuel c token m) as [[v|e|] m1].
  - intros fuel' Hle.
    destruct (resolve user_fn fuel c token m) as [r m1] eqn:Hrun.
    by apply (resolve_more_fuel user_fn fuel).
Qed.

(** *** Containers built with [register] and [registerFactory] only *)

Lemma check_dependencies_returns st deps m m' d :
  check_dependencies st deps m = (Ret tt, m') → d ∈ deps → is_Some (st !! d).
Proof.
  induction deps as [|dep rest IH]; simpl; intros Hrun Hd.
  - by apply elem_of_nil in Hd.
  - destruct (token_in dep st) eqn:Hin; [|done].
    apply elem_of_cons in Hd as [->|Hd]; [|by apply IH].
    by apply elem_of_dom, token_in_true.
Qed.

Lemma registerFactory_checked b token v sc m b' m' :
  registerFactory b token v sc m = (Ret b', m') →
  ∃ o deps,
    containerState b !! token = None
    ∧ dependencies o = Some deps
    ∧ (∀ d, d ∈ deps → is_Some (containerState b !! d))
    ∧ ∃ reg, dependencies reg = Some deps
             ∧ containerState b' = <[token := VObj reg]> (containerState b).
Proof.
  intros Hrun.
  destruct (registerFactory_returns _ _ _ _ _ _ _ Hrun) as (o & -> & Hnew & Hst & _).
  unfold registerFactory in Hrun. simpl in Hrun.
  apply token_in_false in Hnew as Hnew'. rewrite Hnew' in Hrun.
  destruct (dependencies o) as [deps|] eqn:Hdeps; [|done].
  unfold bind in Hrun.
  destruct (check_dependencies (containerState b) deps m) as [[[]|e|] m1] eqn:Hchk;
    [|done..].
  exists o, deps. split; [done|]. split; [done|].
  split; [intros d Hd; by eapply check_dependencies_returns|].
  eexists. split; [|exact Hst]. by destruct sc.
Qed.

Lemma strict_chain_invariant b :
  strict_chain World b →
  closed (containerState b)
  ∧ ∃ (rank : DIToken → nat) (bound : nat),
      ranked rank (containerState b) ∧ ∀ t, rank t < bound.
Proof.
  induction 1 as [|b token v walk m b' m' _
                    [Hclosed (rank & bound & Hrank & Hbound)] Hplain Hrun
                  |b token v sc m b' m' _ [Hclosed (rank & bound & Hrank & Hbound)]
                    Hrun].
  - split; [by intros t o deps d Hlook; simpl in Hlook; rewrite lookup_empty in Hlook|].
    exists (λ _, 0), 1. split; [|intros; lia].
    by intros t o deps d Hlook; simpl in Hlook; rewrite lookup_empty in Hlook.
  - apply register_returns in Hrun as (Hnew%token_in_false & _ & ->).
    cbn [containerState].
    assert (∀ t o deps,
              <[token := v]> (containerState b) !! t = Some (VObj o) →
              dependencies o = Some deps →
              t ≠ token ∧ containerState b !! t = Some (VObj o)) as Hold.
    { intros t o deps [[-> ->]|[? ?]]%lookup_insert_Some Hdeps; [|done].
      unfold has_dependencies in Hplain. simpl in Hplain. by rewrite Hdeps in Hplain. }
    split.
    + intros t o deps d Hlook Hdeps Hd.
      destruct (Hold t o deps Hlook Hdeps) as [_ Hlook'].
      destruct (Hclosed t o deps d Hlook' Hdeps Hd) as [x Hx].
      destruct (decide (token = d)) as [->|Hne].
      * rewrite lookup_insert_eq. by eexists.
      * rewrite lookup_insert_ne by done. by eexists.
    + exists rank, bound. split; [|done].
      intros t o deps d Hlook Hdeps Hd.
      destruct (Hold t o deps Hlook Hdeps) as [_ Hlook']. by eapply Hrank.
  - apply registerFactory_checked in Hrun
      as (o & deps & Hnew & Hdeps & Hall & reg & Hregdeps & ->).
    split.
    + intros t o' deps' d [[-> ?]|[Hne Hlook]]%lookup_insert_Some Hdeps' Hd.
      * simplify_eq. destruct (Hall d Hd) as [x Hx].
        rewrite lookup_insert_ne by (intros ->; congruence). by eexists.
      * destruct (Hclosed t o' deps' d Hlook Hdeps' Hd) as [x Hx].
        rewrite lookup_insert_ne by (intros ->; congruence). by eexists.
    + exists (λ t, if decide (t = token) then bound else rank t), (S bound).
      split.
      * intros t o' deps' d [[-> ?]|[Hne Hlook]]%lookup_insert_Some Hdeps' Hd.
        -- simplify_eq. destruct (Hall d Hd) as [x Hx]. cbv beta.
           repeat case_decide; simplify_eq; first [done|apply Hbound].
        -- destruct (Hclosed t o' deps' d Hlook Hdeps' Hd) as [x Hx]. cbv beta.
           repeat case_decide; simplify_eq; first [done|by eapply Hrank].
      * intros t. case_decide; [lia|]. specialize (Hbound t). lia.
Qed.

(** X12: a builder reached from the empty one by [register], of values that
    are not factory descriptors, and by [registerFactory] holds a state in
    which every dependency of every factory is registered and no factory
    depends on itself, directly or not: on its container [resolve] of any
    token returns or throws, once the recursion may go deep enough. *)
Theorem strict_chain_resolves b :
  strict_chain World b →
  closed (containerState b)
  ∧ ∃ depth, ∀ fuel token m,
      depth ≤ fuel →
      is_out_of_fuel (resolve user_fn fuel (getResult b) token m).1 = false.
Proof.
  intros (Hclosed & rank & bound & Hrank & Hbound)%strict_chain_invariant.
  split; [done|]. exists bound. intros fuel token m Hfuel.
  assert (rank token < fuel) as Hlt by (specialize (Hbound token); lia).
  pose proof (resolve_terminates user_fn rank fuel (getResult b) token m Hrank Hlt).
  by destruct (resolve user_fn fuel (getResult b) token m) as [[v|e|] m1].
Qed.

Lemma call_never_unregistered f args m :
  (∀ id args0 w, throws_unregistered
                   (match (user_fn id args0 w).1 with
                    | Normal v => Ret v
                    | Abrupt e => Throw e
                    end) = false) →
  throws_unregistered (call user_fn f args m).1 = false.
Proof.
  intros Huser. revert m.
  induction f as [id|cell|cell g IH] using Fn_nested_ind; intros m; simpl.
  - unfold call_user. specialize (Huser id args (world m)).
    by destruct (user_fn id args (world m)) as [r w].
  - unfold bind, read_cell. simpl.
    by destruct (nullish (default VUndefined (cells m !! cell))).
  - unfold bind, read_cell. simpl.
    destruct (nullish (default VUndefined (cells m !! cell))); [|done].
    specialize (IH m). by destruct (call user_fn g args m) as [[r|e|] m1].
Qed.

Lemma mapM_never_unregistered {A B} (g : A → M World B) l m :
  (∀ x m0, x ∈ l → throws_unregistered (g x m0).1 = false) →
  throws_unregistered (mapM g l m).1 = false.
Proof.
  revert m. induction l as [|x l IH]; intros m Hg; simpl; [done|].
  unfold bind. pose proof (Hg x m (list_elem_of_here _ _)) as Hx.
  destruct (g x m) as [[y|e|] m1]; [|done..].
  assert (throws_unregistered (mapM g l m1).1 = false) as Hl.
  { apply IH. intros x' m0 Hin. apply Hg. by apply list_elem_of_further. }
  by destruct (mapM g l m1) as [[ys|e|] m2].
Qed.

(** X13: on the container of such a builder, [resolve] of a registered token
    never throws UnregisteredTokenError, provided no factory of the
    application throws one itself: the checks of [registerFactory] leave no
    dependency unregistered. *)
Theorem strict_chain_never_unregistered b fuel token m :
  strict_chain World b →
  (∀ id args w, throws_unregistered
                  (match (user_fn id args w).1 with
                   | Normal v => Ret v
                   | Abrupt e => Throw e
                   end) = false) →
  is_Some (containerState b !! token) →
  throws_unregistered (resolve user_fn fuel (getResult b) token m).1 = false.
Proof.
  intros [Hclosed _]%strict_chain_invariant Huser. revert token m.
  induction fuel as [|fuel IH]; intros token m [state Hlook]; [done|].
  simpl. rewrite Hlook.
  destruct (get_prop dependencies state) as [e|[deps|]] eqn:Hdeps; [|..|done].
  { destruct state; simplify_eq/=; done. }
  unfold bind.
  assert (throws_unregistered (mapM (resolve user_fn fuel (getResult b)) deps m).1
          = false) as Hargs.
  { apply mapM_never_unregistered. intros d m0 Hd. apply IH.
    destruct state; simplify_eq/=. by eapply Hclosed. }
  destruct (mapM (resolve user_fn fuel (getResult b)) deps m) as [[args|e|] m1];
    [|done..].
  destruct (get_prop factory state) as [e|[f|]]; try done.
  by apply call_never_unregistered.
Qed.

(** *** What the scope's cache holds *)

(** X14: the scoped resolver stores instances of tokens registered with the
    scope "scoped" only.  When the cache holds none but such instances (as
    the empty cache of a new scope does), it still does after a call of the
    resolver; and a token with another scope, or a registered value, is
    resolved with the ordinary [resolve] at every call, the cache left as it
    is. *)
Theorem scoped_cache_holds_scoped_tokens_only fuel c instances token m :
  cache_scoped_only c instances →
  cache_scoped_only c ∅
  ∧ (∀ v instances' m',
       scopedResolve user_fn fuel c instances token m = (Ret (v, instances'), m') →
       cache_scoped_only c instances')
  ∧ (get_scope_opt (default VUndefined (getState c !! token)) ≠ Some Scoped →
     scopedResolve user_fn fuel c instances token m =
       match resolve user_fn fuel c token m with
       | (Ret v, m') => (Ret (v, instances), m')
       | (Throw e, m') => (Throw e, m')
       | (OutOfFuel, m') => (OutOfFuel, m')
       end).
Proof.
  intros Hcache. split; [|split].
  - intros t [x Hx]. by rewrite lookup_empty in Hx.
  - intros v instances' m'.
    destruct (instances !! token) as [cached|] eqn:Hhit.
    + rewrite (scopedResolve_hit _ _ _ _ _ cached) by done. by intros; simplify_eq.
    + rewrite scopedResolve_miss by done.
      destruct (resolve user_fn fuel c token m) as [[v1|e|] m1]; [|done..].
      destruct (decide _) as [Hscoped|Hother]; intros; simplify_eq; [|done].
      intros t [x [[-> _]|[_ Hx]]%lookup_insert_Some]; [done|]. by apply Hcache.
  - intros Hother.
    destruct (instances !! token) as [cached|] eqn:Hhit.
    + destruct Hother. apply Hcache. by eexists.
    + rewrite scopedResolve_miss by done.
      destruct (resolve user_fn fuel c token m) as [[v1|e|] m1]; [|done..].
      by rewrite decide_False.
Qed.

(** *** Late binding, and the cells of the singletons *)

(** X15: dependencies are looked up when [resolve] runs.  After a [replace]
    of a token that returns (immer's walk below the value has ended), a
    factory registered before is called on the values the new state holds
    for its dependencies, the replaced one among them, in the application
    state that the walk has left. *)
Theorem replace_rebinds_dependents b token v user o deps id vs fuel m m1 :
  containerState b !! user = Some (VObj o) →
  user ≠ token →
  dependencies o = Some deps →
  factory o = Some (FUser id) →
  registered_values (<[token := v]> (containerState b)) deps vs →
  finalize immer_finalize (containerState b) token v m = (Ret tt, m1) →
  (let* b' := replace immer_finalize b token v in
   resolve user_fn (S (S fuel)) (getResult b') user) m =
    (let '(r, w) := user_fn id vs (world m1) in
     (match r with Normal x => Ret x | Abrupt e => Throw e end,
      mkMachine w (cells m1) (calls m1 ++ [(id, vs)]))).
Proof.
  intros Hlook Hne Hdeps Hf Hvs Hwalk. unfold bind.
  rewrite (replace_ended _ _ _ _ _ _ Hwalk).
  rewrite (resolve_factory _ _ _ _ o deps (FUser id)); [|by simpl; rewrite lookup_insert_ne|done..].
  unfold bind. by rewrite (mapM_resolve_values _ _ deps vs).
Qed.

Lemma scopedResolve_keeps_cell cell v fuel c instances token m :
  nullish v = false → cells m !! cell = Some v →
  cells (scopedResolve user_fn fuel c instances token m).2 !! cell = Some v.
Proof.
  intros Hv Hcell. unfold scopedResolve.
  destruct (instances !! token); [done|]. unfold bind.
  pose proof (resolve_keeps_cell user_fn cell v fuel c token m Hv Hcell) as Hkeep.
  destruct (resolve user_fn fuel c token m) as [[x|e|] m1]; [|done..].
  by destruct (decide _).
Qed.

(** X16: the closure of [defineSingleton] assigns its variable [instance]
    only while it is [null] or [undefined]: an instance that has been
    constructed is never replaced, whatever is resolved afterwards, with
    [resolve] or within [createScope]. *)
Theorem constructed_singletons_are_kept cell v fuel c m :
  nullish v = false →
  cells m !! cell = Some v →
  (∀ token, cells (resolve user_fn fuel c token m).2 !! cell = Some v)
  ∧ (∀ callback, cells (createScope user_fn fuel c callback m).2 !! cell = Some v).
Proof.
  intros Hv Hcell. split; [intros token; by apply resolve_keeps_cell|].
  intros callback. unfold createScope. generalize (∅ : gmap string value).
  generalize (@nil (DIToken * value)). revert m Hcell.
  induction callback as [vs|e|token k IH]; intros m Hcell seen instances; simpl;
    [done..|].
  pose proof (scopedResolve_keeps_cell cell v fuel c instances token m Hv Hcell)
    as Hkeep.
  destruct (scopedResolve user_fn fuel c instances token m)
    as [[[x instances']|e|] m1]; simpl in Hkeep; [| |done].
  - by apply IH.
  - by apply IH.
Qed.

End MoreProperties.

(** ** The further properties on the small application *)

Lemma replace_overwrites_witness :
  replace Plain.immer_finalize Plain.with_counter "First" (VRef 9) Plain.start
  = (OutOfFuel, Plain.start)
  ∧ ∃ b',
      replace Plain.immer_finalize Plain.with_counter "Settings" (VRef 7)
              Plain.start
      = (Ret b', mkMachine (Plain.mkSettings 0 true) [] [])
      ∧ containerState b' !! "Settings" = Some (VRef 7)
      ∧ (∀ t, t ≠ "Settings" →
              containerState b' !! t = containerState Plain.with_counter !! t)
      ∧ (∀ v0 m0 b0 m2 b2 m3,
           replace Plain.immer_finalize Plain.with_counter "Settings" v0 m0
           = (Ret b0, m2) →
           replace Plain.immer_finalize b0 "Settings" (VRef 7) m2
           = (Ret b2, m3) →
           b2 = b')
      ∧ (∀ v2 m2, register Plain.immer_finalize b' "Settings" v2 m2
                  = (Throw (DuplicateTokenError "Settings"), m2))
      ∧ (get_prop dependencies (VRef 7) = inr None →
         ∀ fuel m2,
           resolve Plain.fn (S fuel) (getResult b') "Settings" m2
           = (Ret (VRef 7), m2)).
Proof.
  split.
  - apply (proj1 (replace_overwrites Plain.fn Plain.immer_finalize
                    Plain.with_counter "First" (VRef 9) Plain.start
                    OutOfFuel Plain.start eq_refl)).
    discriminate.
  - apply (proj2 (replace_overwrites Plain.fn Plain.immer_finalize
                    Plain.with_counter "Settings" (VRef 7) Plain.start
                    (Ret tt) (mkMachine (Plain.mkSettings 0 true) [] [])
                    eq_refl)).
    reflexivity.
Defined.

Lemma operations_never_remove_tokens_witness :
  dom (containerState App.with_repoA)
  ⊆ dom (<["UseCase" := VObj (mkObject (Some ["RepoA"]) (Some (FUser 3))
                                       (Some Transient))]>
           (containerState App.with_repoA))
  ∧ ∀ t, t ∈ operation_tokens
               (OpRegisterFactory "UseCase" (App.descriptor ["RepoA"] 3) Transient) →
         t ∈ dom (<["UseCase" := VObj (mkObject (Some ["RepoA"]) (Some (FUser 3))
                                                (Some Transient))]>
                    (containerState App.with_repoA)).
Proof.
  refine (operations_never_remove_tokens App.immer_finalize
            (OpRegisterFactory "UseCase" (App.descriptor ["RepoA"] 3) Transient)
            App.with_repoA App.start
            (buildStrictDIContainer
               (<["UseCase" := VObj (mkObject (Some ["RepoA"]) (Some (FUser 3))
                                              (Some Transient))]>
                  (containerState App.with_repoA)))
            App.start _).
  vm_compute; reflexivity.
Defined.



(** The singleton of X7 at work: three [resolve], one call of the factory. *)
Example singleton_constructed_once_run :
  (let* b := registerFactory App.with_repoA "UseCase" (App.descriptor ["RepoA"] 0)
               Singleton in
   let* first := resolve App.fn 3 (getResult b) "UseCase" in
   let* second := resolve App.fn 3 (getResult b) "UseCase" in
   let* third := resolve App.fn 3 (getResult b) "UseCase" in
   ret [first; second; third]) App.start
  = (Ret [VRef 0; VRef 0; VRef 0], mkMachine 1 [VRef 0] [(0, [VRef 7])]).
Proof. vm_compute; reflexivity. Qed.

Lemma singleton_shared_by_derived_builders_witness :
  resolve App.fn 2
    (getResult (buildStrictDIContainer
                  (<["Other" := VNum 1]> (containerState App.with_singleton))))
    "Service" (mkMachine 1 [VRef 0] [(0, [])])
  = match mapM (resolve App.fn 1
                  (getResult (buildStrictDIContainer
                     (<["Other" := VNum 1]> (containerState App.with_singleton)))))
               [] (mkMachine 1 [VRef 0] [(0, [])]) with
    | (Ret args, m3) => (Ret (VRef 0), m3)
    | (Throw e, m3) => (Throw e, m3)
    | (OutOfFuel, m3) => (OutOfFuel, m3)
    end.
Proof.
  apply (singleton_shared_by_derived_builders App.fn App.immer_finalize
           (getResult App.with_singleton) "Service"
           (mkObject (Some []) (Some (FSingleton 0 (Some (FUser 0)))) (Some Singleton))
           [] (FUser 0) 0 0 App.one_cell (VRef 0) (mkMachine 1 [VRef 0] [(0, [])])
           (OpRegister "Other" (VNum 1))
           (buildStrictDIContainer
              (<["Other" := VNum 1]> (containerState App.with_singleton)))
           (mkMachine 1 [VRef 0] [(0, [])])).
  - reflexivity.
  - reflexivity.
  - reflexivity.
  - simpl. lia.
  - vm_compute; reflexivity.
  - reflexivity.
  - vm_compute; reflexivity.
  - vm_compute; reflexivity.
Defined.

Lemma resolve_names_missing_dependency_witness :
  resolve App.fn 2
    (mkDIContainer
       {[ "UseCase" := VObj (mkObject (Some ["RepoA"; "RepoB"; "RepoC"])
                                      (Some (FUser 0)) None);
          "RepoA" := VRef 7 ]})
    "UseCase" App.start
  = (Throw (UnregisteredTokenError "RepoB"), App.start).
Proof.
  apply (resolve_names_missing_dependency App.fn
           (mkDIContainer
              {[ "UseCase" := VObj (mkObject (Some ["RepoA"; "RepoB"; "RepoC"])
                                             (Some (FUser 0)) None);
                 "RepoA" := VRef 7 ]})
           "UseCase"
           (mkObject (Some ["RepoA"; "RepoB"; "RepoC"]) (Some (FUser 0)) None)
           ["RepoA"] "RepoB" ["RepoC"] [VRef 7] 0 App.start).
  - reflexivity.
  - reflexivity.
  - constructor; [split; reflexivity|constructor].
  - reflexivity.
Defined.

Lemma dependency_cycle_never_resolves_witness :
  is_ret (resolve App.fn 50 App.with_cycle "Chicken" App.start).1 = false.
Proof.
  apply (dependency_cycle_never_resolves App.fn App.with_cycle
           (λ t, t = "Chicken" ∨ t = "Egg") 50 "Chicken" App.start).
  - intros t [->| ->].
    + exists (mkObject (Some ["RepoA"; "Egg"]) (Some (FUser 0)) None),
             ["RepoA"; "Egg"], "Egg".
      split; [reflexivity|]. split; [reflexivity|].
      split; [apply list_elem_of_further, list_elem_of_here|by right].
    + exists (mkObject (Some ["Chicken"]) (Some (FUser 0)) None),
             ["Chicken"], "Chicken".
      split; [reflexivity|]. split; [reflexivity|].
      split; [apply list_elem_of_here|by left].
  - by left.
Defined.

Lemma acyclic_state_resolves_witness :
  is_out_of_fuel (resolve App.fn 2 App.with_scoped "Handler" App.start).1 = false
  ∧ ∀ fuel', 2 ≤ fuel' →
             resolve App.fn fuel' App.with_scoped "Handler" App.start
             = resolve App.fn 2 App.with_scoped "Handler" App.start.
Proof.
  apply (acyclic_state_resolves App.fn
           (λ t, if decide (t = "Handler") then 1 else 0)
           2 App.with_scoped "Handler" App.start).
  - intros t o deps d Hlook Hdeps Hd. simpl in Hlook.
    apply lookup_insert_Some in Hlook as [[? ?]|[_ Hlook]].
    + simplify_eq/=. by apply elem_of_nil in Hd.
    + apply lookup_singleton_Some in Hlook as [? ?].
      simplify_eq/=. apply list_elem_of_singleton in Hd as ->.
      vm_compute. lia.
  - vm_compute. lia.
Defined.

Lemma wired_strict_chain : strict_chain nat App.wired.
Proof.
  eapply (strict_registerFactory nat _ "UseCase" (App.descriptor ["RepoA"] 3)
            Singleton App.start).
  - eapply (strict_register nat App.empty "RepoA" (VRef 7) App.immer_finalize
              App.start).
    + apply strict_empty.
    + reflexivity.
    + vm_compute; reflexivity.
  - vm_compute; reflexivity.
Qed.

Lemma strict_chain_resolves_witness :
  closed (containerState App.wired)
  ∧ ∃ depth, ∀ fuel token m,
      depth ≤ fuel →
      is_out_of_fuel (resolve App.fn fuel (getResult App.wired) token m).1 = false.
Proof.
  apply (strict_chain_resolves App.fn App.wired).
  eapply (strict_registerFactory nat _ "UseCase" (App.descriptor ["RepoA"] 3)
            Singleton App.start).
  - eapply (strict_register nat App.empty "RepoA" (VRef 7) App.immer_finalize
              App.start).
    + apply strict_empty.
    + reflexivity.
    + vm_compute; reflexivity.
  - vm_compute; reflexivity.
Defined.

Lemma strict_chain_never_unregistered_witness :
  throws_unregistered
    (resolve App.fn 5 (getResult App.wired) "UseCase" App.one_cell).1 = false.
Proof.
  apply (strict_chain_never_unregistered App.fn App.wired 5 "UseCase" App.one_cell).
  - apply wired_strict_chain.
  - intros id args w. destruct id as [|[|[|[|id]]]]; simpl; try done.
    by destruct w.
  - eexists. reflexivity.
Defined.

Lemma scoped_cache_holds_scoped_tokens_only_witness :
  cache_scoped_only App.with_scoped ∅
  ∧ (∀ v instances' m',
       scopedResolve App.fn 3 App.with_scoped {[ "Session" := VRef 0 ]} "Handler"
                     (mkMachine 1 [] [(0, [])]) = (Ret (v, instances'), m') →
       cache_scoped_only App.with_scoped instances')
  ∧ scopedResolve App.fn 3 App.with_scoped {[ "Session" := VRef 0 ]} "Handler"
                  (mkMachine 1 [] [(0, [])])
    = match resolve App.fn 3 App.with_scoped "Handler" (mkMachine 1 [] [(0, [])]) with
      | (Ret v, m') => (Ret (v, {[ "Session" := VRef 0 ]}), m')
      | (Throw e, m') => (Throw e, m')
      | (OutOfFuel, m') => (OutOfFuel, m')
      end.
Proof.
  destruct (scoped_cache_holds_scoped_tokens_only App.fn 3 App.with_scoped
              {[ "Session" := VRef 0 ]} "Handler" (mkMachine 1 [] [(0, [])]))
    as (Hempty & Hkeeps & Hother).
  - intros t [x Hx]. apply lookup_singleton_Some in Hx as [<- _]. reflexivity.
  - split; [exact Hempty|]. split; [exact Hkeeps|].
    apply Hother. discriminate.
Defined.

Lemma replace_rebinds_dependents_witness :
  (let* b' := replace App.immer_finalize
                (buildStrictDIContainer
                   (<["Report" := App.descriptor ["RepoA"] 3]>
                      (containerState App.wired)))
                "RepoA" (VRef 8) in
   resolve App.fn 2 (getResult b') "Report") App.start
  = (Ret (VRef 8), mkMachine 0 [] [(3, [VRef 8])]).
Proof.
  refine (replace_rebinds_dependents App.fn App.immer_finalize
            (buildStrictDIContainer
               (<["Report" := App.descriptor ["RepoA"] 3]> (containerState App.wired)))
            "RepoA" (VRef 8) "Report"
            (mkObject (Some ["RepoA"]) (Some (FUser 3)) None)
            ["RepoA"] 3 [VRef 8] 0 App.start App.start _ _ _ _ _ _).
  - reflexivity.
  - discriminate.
  - reflexivity.
  - reflexivity.
  - constructor; [split; reflexivity|constructor].
  - reflexivity.
Defined.

Lemma constructed_singletons_are_kept_witness :
  (∀ token,
     cells (resolve App.fn 4 (getResult App.wired) token
              (mkMachine 1 [VRef 0] [])).2 !! 0 = Some (VRef 0))
  ∧ (∀ callback,
       cells (createScope App.fn 4 (getResult App.wired) callback
                (mkMachine 1 [VRef 0] [])).2 !! 0 = Some (VRef 0)).
Proof.
  apply (constructed_singletons_are_kept App.fn 0 (VRef 0) 4
           (getResult App.wired) (mkMachine 1 [VRef 0] [])); reflexivity.
Defined.
